(** * The authenticated HTTP client of [src/api/api-client.ts]

    A shallow embedding of the axios client with its bearer-token request
    interceptor, its refresh-and-retry response interceptor, [refreshTokens],
    [handleApiError] and [handleLogout], together with the MMKV token store
    they share and the logger of [services/logger.ts] they report to.

    The client is asynchronous JavaScript.  Programs are written once, in a
    small resumption monad [Prog] whose only suspension point is a network
    call; the monad is then given two readings:
    - [run]: one logical call executed alone against a scripted server;
    - [advance] / [deliver] / [step]: several logical calls in flight on the
      single-threaded event loop, each resumed when its response arrives.

    The logger is built from the build flag [__DEV__]: a development build
    gives it a console transport, a production build gives it none, and
    there every [logger.error] raises.  The client is therefore a function
    of the build, and the theorems below say what holds of each. *)

From Stdlib Require Import ZArith.
From stdpp Require Import gmap strings list pretty.

Local Open Scope string_scope.
Local Open Scope Z_scope.
Local Open Scope list_scope.

(** ** Data *)

(** The two axios instances of the file: the global [axios] import, which
    carries no interceptors, and the instance built by [axios.create]. *)
Inductive AxiosInstance := axios | api_client.

Definition same_instance (i j : AxiosInstance) : bool :=
  match i, j with
  | axios, axios | api_client, api_client => true
  | _, _ => false
  end.

(** An axios request configuration.  JSON bodies are kept as the object of
    their string-valued members; [_retry] is the custom flag the response
    interceptor stores on the configuration ([undefined] reads as [false]). *)
Record Config := {
  url : string;
  method : string;
  baseURL : option string;
  timeout : option Z;
  headers : option (gmap string string);
  data : option (gmap string string);
  _retry : bool
}.

Record Response := {
  status : Z;
  body : option (gmap string string)
}.

(** [AxiosError]: [request] tells whether the request object is defined,
    [response] is present when the server answered. *)
Record AxiosError := {
  message : string;
  config : Config;
  request : bool;
  response : option Response
}.

Inductive JsError :=
| Error (msg : string)
| TypeError (msg : string)
| AxiosErr (e : AxiosError).

(** What the adapter of an instance reports for the configuration it is
    handed: a response; a request that got no response; or a failure
    before a request object existed. *)
Inductive NetOutcome :=
| Responded (r : Response)
| NoResponse (msg : string)
| SetupFailed (msg : string).

Inductive Level := LDebug | LInfo | LWarn | LError.

Inductive LogData :=
| NoData
| Text (s : string)
| Thrown (e : JsError)
| RequestObject.

Inductive LoggerHook := requestLogger | responseLogger | errorLogger.

(** Observable interactions of the client with its collaborators: requests
    handed to a transport, calls into [logger] of [services/logger.ts], and
    AxiosLogger printouts.  [EvLog] records the call the client makes; what
    the logger does with it, which depends on the build, is [Logger_call]
    below. *)
Inductive Event :=
| EvSend (inst : AxiosInstance) (cfg : Config)
| EvLog (lvl : Level) (msg : string) (d : LogData)
| EvAxiosLogger (h : LoggerHook).

(** ** The resumption monad *)

Inductive Prog (R : Type) : Type :=
| Ret (r : R)
| Throw (e : JsError)
| Unfinished
| GetString (key : string) (k : option string → Prog R)
| SetString (key value : string) (k : Prog R)
| Delete (key : string) (k : Prog R)
| Log (lvl : Level) (msg : string) (d : LogData) (k : Prog R)
| AxiosLog (h : LoggerHook) (k : Prog R)
| Send (inst : AxiosInstance) (cfg : Config) (k : NetOutcome → Prog R).

Arguments Ret {R} r.
Arguments Throw {R} e.
Arguments Unfinished {R}.
Arguments GetString {R} key k.
Arguments SetString {R} key value k.
Arguments Delete {R} key k.
Arguments Log {R} lvl msg d k.
Arguments AxiosLog {R} h k.
Arguments Send {R} inst cfg k.

Fixpoint bind {A B} (p : Prog A) (f : A → Prog B) : Prog B :=
  match p with
  | Ret r => f r
  | Throw e => Throw e
  | Unfinished => Unfinished
  | GetString key k => GetString key (λ v, bind (k v) f)
  | SetString key value k => SetString key value (bind k f)
  | Delete key k => Delete key (bind k f)
  | Log lvl msg d k => Log lvl msg d (bind k f)
  | AxiosLog h k => AxiosLog h (bind k f)
  | Send inst cfg k => Send inst cfg (λ o, bind (k o) f)
  end.

(** [try { p } catch (error) { h error }] *)
Fixpoint try_catch {A} (p : Prog A) (h : JsError → Prog A) : Prog A :=
  match p with
  | Ret r => Ret r
  | Throw e => h e
  | Unfinished => Unfinished
  | GetString key k => GetString key (λ v, try_catch (k v) h)
  | SetString key value k => SetString key value (try_catch k h)
  | Delete key k => Delete key (try_catch k h)
  | Log lvl msg d k => Log lvl msg d (try_catch k h)
  | AxiosLog hk k => AxiosLog hk (try_catch k h)
  | Send inst cfg k => Send inst cfg (λ o, try_catch (k o) h)
  end.

Declare Scope prog_scope.
Delimit Scope prog_scope with prog.
Bind Scope prog_scope with Prog.
Notation "x ← p ; q" := (bind p (λ x, q))
  (at level 20, p at level 100, q at level 200, right associativity,
   format "'[' x  ←  p ;  '/' q ']'") : prog_scope.
Notation "p ;; q" := (bind p (λ _, q))
  (at level 100, q at level 200, right associativity) : prog_scope.
Local Open Scope prog_scope.

(** ** JavaScript helpers *)

(** Truthiness of a [string | undefined | null]. *)
Definition truthy (v : option string) : bool :=
  match v with
  | Some s => negb (String.eqb s "")
  | None => false
  end.

(** [v || d] on strings. *)
Definition or_else (v : option string) (d : string) : string :=
  match v with
  | Some s => if String.eqb s "" then d else s
  | None => d
  end.

Definition error_message (e : JsError) : string :=
  match e with
  | Error msg | TypeError msg => msg
  | AxiosErr a => message a
  end.

Definition error_response (e : JsError) : option Response :=
  match e with
  | AxiosErr a => response a
  | _ => None
  end.

Definition error_request (e : JsError) : bool :=
  match e with
  | AxiosErr a => request a
  | _ => false
  end.

Definition error_config (e : JsError) : option Config :=
  match e with
  | AxiosErr a => Some (config a)
  | _ => None
  end.

(** ** The MMKV token store *)

(** [apiTokenLocalStorage.set(key, value)]: react-native-mmkv accepts a
    boolean, number, string or buffer and throws on anything else, in
    particular on [undefined]. *)
Definition mmkv_set (key : string) (value : option string) : Prog unit :=
  match value with
  | Some s => SetString key s (Ret tt)
  | None =>
      Throw (Error "MMKV::set: 'value' argument is not of type bool, number, string or buffer!")
  end.

Definition mmkv_getString (key : string) : Prog (option string) :=
  GetString key Ret.

Definition mmkv_delete (key : string) : Prog unit := Delete key (Ret tt).

(** ** Transport *)

(** axios' default [validateStatus]. *)
Definition validateStatus (s : Z) : bool := (200 <=? s) && (s <? 300).

(** How axios settles a request once the adapter has an outcome: a status
    accepted by [validateStatus] resolves, everything else rejects with an
    [AxiosError] that carries the configuration that was sent. *)
Definition settle (cfg : Config) (o : NetOutcome) : Prog Response :=
  match o with
  | Responded r =>
      if validateStatus (status r) then Ret r
      else Throw (AxiosErr {| message := "Request failed with status code " +:+ pretty (status r);
                              config := cfg; request := true; response := Some r |})
  | NoResponse msg =>
      Throw (AxiosErr {| message := msg; config := cfg; request := true; response := None |})
  | SetupFailed msg =>
      Throw (AxiosErr {| message := msg; config := cfg; request := false; response := None |})
  end.

Definition dispatchRequest (inst : AxiosInstance) (cfg : Config) : Prog Response :=
  Send inst cfg (settle cfg).

(** [axios.create({baseURL: STRINGS.API_BASE_URL, timeout: 10 * 1000,
    headers: {'Content-Type': 'application/json'}})] *)
Definition API_BASE_URL : string := "https://api.example.com".

(** The defaults of the instance: [axios.create] lays the configuration it
    is given over the defaults of the library, of which the common Accept
    header reaches every request.  Header names are compared as they are
    spelled. *)
Definition apiClient_defaults : Config :=
  {| url := ""; method := "get";
     baseURL := Some API_BASE_URL;
     timeout := Some (10 * 1000);
     headers := Some {[ "Accept" := "application/json, text/plain, */*";
                        "Content-Type" := "application/json" ]};
     data := None;
     _retry := false |}.

(** axios' [mergeConfig]: the request's own value wins, the instance default
    fills what it leaves undefined, headers are merged key by key, and custom
    keys such as [_retry] are carried over. *)
Definition mergeConfig (defaults cfg : Config) : Config :=
  {| url := url cfg;
     method := method cfg;
     baseURL := match baseURL cfg with Some b => Some b | None => baseURL defaults end;
     timeout := match timeout cfg with Some t => Some t | None => timeout defaults end;
     headers := Some (default ∅ (headers cfg) ∪ default ∅ (headers defaults));
     data := data cfg;
     _retry := _retry cfg || _retry defaults |}.

(** [axios.post(url, data)] on the global instance: no interceptor is
    registered on it, so the call is the bare dispatch.  The library's own
    default headers are left out. *)
Definition axios_post (path : string) (payload : gmap string string) : Prog Response :=
  dispatchRequest axios
    {| url := path; method := "post"; baseURL := None; timeout := None;
       headers := Some ∅; data := Some payload; _retry := false |}.

(** ** The request interceptor *)

Definition set_Authorization (cfg : Config) (h : gmap string string) (token : string) : Config :=
  {| url := url cfg; method := method cfg; baseURL := baseURL cfg;
     timeout := timeout cfg;
     headers := Some (<["Authorization" := "Bearer " +:+ token]> h);
     data := data cfg; _retry := _retry cfg |}.

Definition set_retry (cfg : Config) : Config :=
  {| url := url cfg; method := method cfg; baseURL := baseURL cfg;
     timeout := timeout cfg; headers := headers cfg;
     data := data cfg; _retry := true |}.

(** Request interceptor (fulfilled handler).  Its rejected handler stands
    first in the request chain, where nothing can have failed yet, and is
    never entered. *)
Definition requestInterceptor (cfg : Config) : Prog Config :=
  accessToken ← mmkv_getString "access_token";
  match accessToken, headers cfg with
  | Some token, Some h =>
      if truthy accessToken then Ret (set_Authorization cfg h token) else Ret cfg
  | _, _ => Ret cfg
  end.

(** ** Semantics *)

(** The shared state: the MMKV instance [apiTokenLocalStorage] and the
    chronological record of observable events. *)
Record World := {
  store : gmap string string;
  trace : list Event
}.

Definition emit (ev : Event) (w : World) : World :=
  {| store := store w; trace := trace w ++ [ev] |}.

Definition write (key value : string) (w : World) : World :=
  {| store := <[key := value]> (store w); trace := trace w |}.

Definition remove (key : string) (w : World) : World :=
  {| store := delete key (store w); trace := trace w |}.

(** How a promise ends.  [OutOfFuel] is the model's own outcome for a run
    that was cut short; [apiClient_fuel_irrelevant] shows it never happens
    with two units of fuel. *)
Inductive Settled (R : Type) : Type :=
| Fulfilled (r : R)
| Rejected (e : JsError)
| OutOfFuel.

Arguments Fulfilled {R} r.
Arguments Rejected {R} e.
Arguments OutOfFuel {R}.

(** The configurations handed to the adapter of one instance, in order. *)
Fixpoint sends (inst : AxiosInstance) (t : list Event) : list Config :=
  match t with
  | [] => []
  | EvSend i cfg :: t' =>
      if same_instance i inst then cfg :: sends inst t' else sends inst t'
  | _ :: t' => sends inst t'
  end.

(** The calls into [logger], in order. *)
Fixpoint logs (t : list Event) : list (Level * string * LogData) :=
  match t with
  | [] => []
  | EvLog lvl msg d :: t' => (lvl, msg, d) :: logs t'
  | _ :: t' => logs t'
  end.

(** *** One logical call on its own

    The server is scripted: [server inst n] is the outcome of the [n]-th
    request (counting from 0) that instance [inst] hands to its transport. *)
Definition Server : Type := AxiosInstance → nat → NetOutcome.

Fixpoint run {R} (server : Server) (p : Prog R) (w : World) : World * Settled R :=
  match p with
  | Ret r => (w, Fulfilled r)
  | Throw e => (w, Rejected e)
  | Unfinished => (w, OutOfFuel)
  | GetString key k => run server (k (store w !! key)) w
  | SetString key value k => run server k (write key value w)
  | Delete key k => run server k (remove key w)
  | Log lvl msg d k => run server k (emit (EvLog lvl msg d) w)
  | AxiosLog h k => run server k (emit (EvAxiosLogger h) w)
  | Send inst cfg k =>
      run server (k (server inst (length (sends inst (trace w)))))
          (emit (EvSend inst cfg) w)
  end.

(** *** Several logical calls on the event loop

    A task runs without interruption until it hands a request to a transport
    and is resumed, again without interruption, when the outcome of that
    request arrives; tasks only interleave at these points. *)
Inductive Task (R : Type) : Type :=
| Done (r : Settled R)
| Awaiting (inst : AxiosInstance) (cfg : Config) (k : NetOutcome → Prog R).

Arguments Done {R} r.
Arguments Awaiting {R} inst cfg k.

Fixpoint advance {R} (p : Prog R) (w : World) : World * Task R :=
  match p with
  | Ret r => (w, Done (Fulfilled r))
  | Throw e => (w, Done (Rejected e))
  | Unfinished => (w, Done OutOfFuel)
  | GetString key k => advance (k (store w !! key)) w
  | SetString key value k => advance k (write key value w)
  | Delete key k => advance k (remove key w)
  | Log lvl msg d k => advance k (emit (EvLog lvl msg d) w)
  | AxiosLog h k => advance k (emit (EvAxiosLogger h) w)
  | Send inst cfg k => (emit (EvSend inst cfg) w, Awaiting inst cfg k)
  end.

Record System (R : Type) := {
  world : World;
  pool : list (Task R)
}.

Arguments world {R} s.
Arguments pool {R} s.

(** A new logical call enters the pool. *)
Definition spawn {R} (p : Prog R) (s : System R) : System R :=
  let '(w, t) := advance p (world s) in
  {| world := w; pool := pool s ++ [t] |}.

(** The outcome [o] of the request task [i] is waiting for arrives. *)
Definition deliver {R} (i : nat) (o : NetOutcome) (s : System R) : option (System R) :=
  match pool s !! i with
  | Some (Awaiting inst cfg k) =>
      let '(w, t) := advance (k o) (world s) in
      Some {| world := w; pool := <[i := t]> (pool s) |}
  | _ => None
  end.

Inductive step {R} : System R → System R → Prop :=
| step_spawn p s : step s (spawn p s)
| step_deliver i o s s' : deliver i o s = Some s' → step s s'.

(** A schedule is the order in which outcomes arrive. *)
Fixpoint deliver_all {R} (sched : list (nat * NetOutcome)) (s : System R) : option (System R) :=
  match sched with
  | [] => Some s
  | (i, o) :: sched' =>
      match deliver i o s with
      | Some s' => deliver_all sched' s'
      | None => None
      end
  end.

(** ** Statement vocabulary *)

(** A world in which nothing has been observed yet: the start of one
    logical call. *)
Definition fresh (s : gmap string string) : World := {| store := s; trace := [] |}.

(** [send]: one logical call through the authenticated client. *)
Definition unauthorized (b : option (gmap string string)) : NetOutcome :=
  Responded {| status := 401; body := b |}.


(** The request [refreshTokens] posts for the refresh token [token]. *)
Definition exchange_request (path token : string) : Config :=
  {| url := path; method := "post"; baseURL := None; timeout := None;
     headers := Some ∅; data := Some {[ "refreshToken" := token ]}; _retry := false |}.

Definition logout_entry : Level * string * LogData :=
  (LDebug, "Logout successful and data cleared.", NoData).

Definition Authorization (cfg : Config) : option string :=
  headers cfg ≫= (.!! "Authorization").

(** The world [handleLogout] leaves. *)
Definition logged_out (w : World) : World :=
  emit (EvLog LDebug "Logout successful and data cleared." NoData)
    (remove "refresh_token" (remove "access_token" w)).

(** The world [refreshTokens] leaves on its failure path, entered with the
    error [e] in the world [w]. *)
Definition refresh_failure (e : JsError) (w : World) : World :=
  emit (EvLog LError "Token Refresh Error:" (Thrown e))
    (remove "refresh_token" (remove "access_token" w)).

(** The world it leaves when the exchange returned both tokens. *)
Definition refresh_success (accessToken newRefreshToken : string) (w : World) : World :=
  write "access_token" accessToken (write "refresh_token" newRefreshToken w).

(** The configuration the adapter receives for [cfg] when the store is [s]:
    merged with the instance defaults, then passed through the request
    interceptor. *)
Definition outgoing (s : gmap string string) (cfg : Config) : Config :=
  let merged := mergeConfig apiClient_defaults cfg in
  match s !! "access_token", headers merged with
  | Some token, Some h =>
      if String.eqb token "" then merged else set_Authorization merged h token
  | _, _ => merged
  end.

(** The error axios raises for an outcome, if it raises one. *)
Definition rejection (cfg : Config) (o : NetOutcome) : option AxiosError :=
  match o with
  | Responded r =>
      if validateStatus (status r) then None
      else Some {| message := "Request failed with status code " +:+ pretty (status r);
                   config := cfg; request := true; response := Some r |}
  | NoResponse msg =>
      Some {| message := msg; config := cfg; request := true; response := None |}
  | SetupFailed msg =>
      Some {| message := msg; config := cfg; request := false; response := None |}
  end.


(** [p; return Promise.reject(e)]: how the promise ends once [p] has ended
    with [r]. *)
Definition then_rejects (r : Settled unit) (e : JsError) : Settled Response :=
  match r with
  | Fulfilled _ => Rejected e
  | Rejected e' => Rejected e'
  | OutOfFuel => OutOfFuel
  end.


(** ** Scenario data *)

Definition products_request : Config :=
  {| url := "/products"; method := "get"; baseURL := None; timeout := None;
     headers := None; data := None; _retry := false |}.

Definition product_request : Config :=
  {| url := "/products/42"; method := "get"; baseURL := None; timeout := None;
     headers := None; data := None; _retry := false |}.

Definition signed_in : gmap string string :=
  {[ "access_token" := "a0"; "refresh_token" := "r0" ]}.


(** A token endpoint answer carrying both tokens, and one without a rotated
    refresh token. *)
Definition tokens (accessToken newRefreshToken : string) : NetOutcome :=
  Responded {| status := 200;
               body := Some {[ "accessToken" := accessToken;
                               "refresh_token" := newRefreshToken ]} |}.

Definition access_token_only (accessToken : string) : NetOutcome :=
  Responded {| status := 200; body := Some {[ "accessToken" := accessToken ]} |}.

Definition offline : Server := λ _ _, NoResponse "Network Error".

(** The API rejects every request with 401; the token endpoint behaves as
    [exchange] says. *)
Definition rejecting (exchange : NetOutcome) : Server :=
  λ inst _, match inst with api_client => unauthorized None | axios => exchange end.

(** A server that answers the client's requests from a script and the token
    endpoint with [exchange]; once the script is used up the network is
    down. *)
Definition scripted (answers : list NetOutcome) (exchange : NetOutcome) : Server :=
  λ inst n,
    match inst with
    | api_client => nth n answers (NoResponse "Network Error")
    | axios => exchange
    end.

Definition ok (payload : gmap string string) : NetOutcome :=
  Responded {| status := 200; body := Some payload |}.


Definition signed_in_with_theme : gmap string string :=
  {[ "access_token" := "a0"; "refresh_token" := "r0"; "theme" := "dark" ]}.

Definition offline_exchange : NetOutcome := NoResponse "Network Error".


(** The message Hermes gives the TypeError it raises when [undefined] is
    called. *)
Definition hermes_message : string := "undefined is not a function".

(** The configuration axios builds for [instance.get(url)],
    [instance.delete(url)], [instance.post(url, data)] and
    [instance.put(url, data)]. *)
Definition request_config (verb path : string) (payload : option (gmap string string))
  : Config :=
  {| url := path; method := verb; baseURL := None; timeout := None;
     headers := None; data := payload; _retry := false |}.

(** ** The query keys and the cache update of the product hooks *)

(** Query keys: an array of strings, closed by the object [{filters}] in
    the key of a filtered list. *)
Inductive KeyPart :=
| KString (s : string)
| KFilters (filters : string).

Definition QueryKey : Type := list KeyPart.

Module productKeys.
Definition all : QueryKey := [KString "products"].
Definition lists : QueryKey := all ++ [KString "list"].
Definition list (filters : string) : QueryKey := lists ++ [KFilters filters].
Definition details : QueryKey := all ++ [KString "detail"].
Definition detail (id : string) : QueryKey := details ++ [KString id].
Definition search (query : string) : QueryKey :=
  all ++ [KString "search"; KString query].
End productKeys.

(** The keys [productKeys] can build. *)
Inductive ProductKey :=
| KeyAll
| KeyLists
| KeyList (filters : string)
| KeyDetails
| KeyDetail (id : string)
| KeySearch (query : string).

Definition key_of (k : ProductKey) : QueryKey :=
  match k with
  | KeyAll => productKeys.all
  | KeyLists => productKeys.lists
  | KeyList filters => productKeys.list filters
  | KeyDetails => productKeys.details
  | KeyDetail id => productKeys.detail id
  | KeySearch query => productKeys.search query
  end.

(** The updater [updateProductOptimistically] hands to the query cache:
    [old => old ? {...old, ...updates} : old], on objects with members of
    any type. *)
Definition optimistic_update {V} (updates : gmap string V) (old : option (gmap string V))
  : option (gmap string V) :=
  match old with
  | Some product => Some (updates ∪ product)
  | None => None
  end.

(** ** Programs that only touch the two token keys *)

Definition token_key (key : string) : Prop :=
  key = "access_token" ∨ key = "refresh_token".

Inductive TokenOnly {R} : Prog R → Prop :=
| TokenOnly_Ret r : TokenOnly (Ret r)
| TokenOnly_Throw e : TokenOnly (Throw e)
| TokenOnly_Unfinished : TokenOnly Unfinished
| TokenOnly_GetString key k :
    (∀ v, TokenOnly (k v)) → TokenOnly (GetString key k)
| TokenOnly_SetString key value k :
    token_key key → TokenOnly k → TokenOnly (SetString key value k)
| TokenOnly_Delete key k :
    token_key key → TokenOnly k → TokenOnly (Delete key k)
| TokenOnly_Log lvl msg d k : TokenOnly k → TokenOnly (Log lvl msg d k)
| TokenOnly_AxiosLog h k : TokenOnly k → TokenOnly (AxiosLog h k)
| TokenOnly_Send inst cfg k :
    (∀ o, TokenOnly (k o)) → TokenOnly (Send inst cfg k).

Definition TaskTokenOnly {R} (t : Task R) : Prop :=
  match t with
  | Done _ => True
  | Awaiting _ _ k => ∀ o, TokenOnly (k o)
  end.

(** Every key other than the two token keys reads the same in both stores. *)
Definition same_other_keys (s s' : gmap string string) : Prop :=
  ∀ key, ¬ token_key key → s' !! key = s !! key.


(** ** JavaScript numbers in a template literal *)

(** [Number.isSafeInteger]: the integers a JavaScript number holds
    exactly. *)
Definition isSafeInteger (n : Z) : bool :=
  (- (2 ^ 53 - 1) <=? n) && (n <=? 2 ^ 53 - 1).

(** [`${n}`] for a safe integer [n] is its decimal numeral.  Numbers beyond
    (fractions, the exponent form that starts at 1e21, NaN) are outside the
    model: the theorems about them assume [isSafeInteger]. *)
Definition number_toString (n : Z) : string := pretty n.

(** ** The logger of [services/logger.ts] *)

(** The levels of react-native-logs, in the order of their severity. *)
Definition rank (lvl : Level) : nat :=
  match lvl with
  | LDebug => 0
  | LInfo => 1
  | LWarn => 2
  | LError => 3
  end.

Inductive Transport := consoleTransport.

(** What the logger and the firebase service hand to their own sinks: a
    call into the react-native-logs logger and the two crashlytics calls. *)
Inductive Sink :=
| RnLogger (lvl : Level) (msg : string) (d : LogData)
| CrashlyticsLog (line : string)
| CrashlyticsRecordError (e : JsError).

(** What a method has handed to the sinks when it returns or raises, and
    the error it raises, if any. *)
Definition Output : Type := list Sink * option JsError.

Definition nothing : Output := ([], None).

(** [first; second]: the second statement runs unless the first raised. *)
Definition and_then (first second : Output) : Output :=
  match first.2 with
  | Some e => first
  | None => (first.1 ++ second.1, second.2)
  end.

Definition crashlytics_log (line : string) : Output := ([CrashlyticsLog line], None).

Definition crashlytics_recordError (e : JsError) : Output :=
  ([CrashlyticsRecordError e], None).

(** [data || {}]: [undefined] and the empty string are falsy; [None] stands
    for the empty object. *)
Definition or_empty_object (d : LogData) : option LogData :=
  match d with
  | NoData => None
  | Text s => if String.eqb s "" then None else Some d
  | _ => Some d
  end.

(** [error instanceof Error] *)
Definition instanceof_Error (d : LogData) : option JsError :=
  match d with
  | Thrown e => Some e
  | _ => None
  end.

(** The errors a list of sink events records in crashlytics. *)
Fixpoint recorded_errors (l : list Sink) : list JsError :=
  match l with
  | [] => []
  | CrashlyticsRecordError e :: l' => e :: recorded_errors l'
  | _ :: l' => recorded_errors l'
  end.

(** The lines it writes to the crashlytics log. *)
Fixpoint crashlytics_lines (l : list Sink) : list string :=
  match l with
  | [] => []
  | CrashlyticsLog line :: l' => line :: crashlytics_lines l'
  | _ :: l' => crashlytics_lines l'
  end.

Section App.

(** The message of the TypeError the JavaScript engine raises when a value
    that is [undefined] is called.  Its wording is the engine's own. *)
Variable not_a_function : string.

Section Logger.

(** The build flag. *)
Variable __DEV__ : bool.

(** [rnLogger.createLogger({severity: __DEV__ ? 'debug' : 'error',
    transport: __DEV__ ? consoleTransport : undefined})] *)
Definition severity : Level := if __DEV__ then LDebug else LError.

Definition transport : option Transport :=
  if __DEV__ then Some consoleTransport else None.

(** [this.logger.<lvl>(msg, data)] of react-native-logs.  A message whose
    level is below the severity is dropped.  Every other message is handed
    to the transport; when the logger was created without one, that is a
    call of [undefined] and raises a TypeError.  This is the error the call
    raises, if any. *)
Definition rnLogger_raises (lvl : Level) : option JsError :=
  if (rank lvl <? rank severity)%nat then None
  else
    match transport with
    | Some _ => None
    | None => Some (TypeError not_a_function)
    end.

Definition rnLogger_log (lvl : Level) (msg : string) (d : LogData) : Output :=
  ([RnLogger lvl msg d], rnLogger_raises lvl).

(** [JSON.stringify] *)
Variable stringify : option LogData → string.

Definition Logger_info (msg : string) (d : LogData) : Output :=
  and_then (rnLogger_log LInfo msg d)
    (if negb __DEV__
     then crashlytics_log ("INFO: " +:+ msg +:+ " - " +:+ stringify (or_empty_object d))
     else nothing).

Definition Logger_warn (msg : string) (d : LogData) : Output :=
  and_then (rnLogger_log LWarn msg d)
    (if negb __DEV__
     then crashlytics_log ("WARN: " +:+ msg +:+ " - " +:+ stringify (or_empty_object d))
     else nothing).

Definition Logger_error (msg : string) (d : LogData) : Output :=
  and_then (rnLogger_log LError msg d)
    (if negb __DEV__
     then
       and_then
         match instanceof_Error d with
         | Some e => crashlytics_recordError e
         | None => nothing
         end
         (crashlytics_log ("ERROR: " +:+ msg +:+ " - " +:+ stringify (or_empty_object d)))
     else nothing).

Definition Logger_debug (msg : string) (d : LogData) : Output :=
  if __DEV__ then rnLogger_log LDebug msg d else nothing.

(** The method behind a call [logger.<level>(msg, d)]. *)
Definition Logger_call (lvl : Level) (msg : string) (d : LogData) : Output :=
  match lvl with
  | LDebug => Logger_debug msg d
  | LInfo => Logger_info msg d
  | LWarn => Logger_warn msg d
  | LError => Logger_error msg d
  end.

(** What reaches the sinks for the logger calls of a trace. *)
Fixpoint sink_output (t : list Event) : list Sink :=
  match t with
  | [] => []
  | EvLog lvl msg d :: t' => (Logger_call lvl msg d).1 ++ sink_output t'
  | _ :: t' => sink_output t'
  end.


End Logger.

(** ** The client *)

(** [ENDPOINTS.REFRESH_TOKEN_PATH], from [./endpoints]. *)
Variable REFRESH_TOKEN_PATH : string.

Section Build.

(** The build flag of the application: [true] in a development build,
    [false] in a production build. *)
Variable __DEV__ : bool.

(** [logger.error(msg, d)] and [logger.debug(msg)] as the client calls
    them: the call is observed, and what the method raises is raised in the
    caller.  Of the statements of [Logger.error] only the first,
    [this.logger.error], can raise; [Logger.debug] reaches the library in
    development builds only. *)
Definition logger_error (msg : string) (d : LogData) : Prog unit :=
  Log LError msg d
    match rnLogger_raises __DEV__ LError with
    | Some e => Throw e
    | None => Ret tt
    end.

Definition logger_debug (msg : string) : Prog unit :=
  Log LDebug msg NoData
    match (if __DEV__ then rnLogger_raises __DEV__ LDebug else None) with
    | Some e => Throw e
    | None => Ret tt
    end.

(** Logout Logic *)
Definition handleLogout : Prog unit :=
  try_catch
    (mmkv_delete "access_token";;
     mmkv_delete "refresh_token";;
     logger_debug "Logout successful and data cleared.")
    (λ error, logger_error "Error during logout: " (Thrown error)).

(** Global Error Handler Function *)
Definition handleApiError (error : JsError) : Prog unit :=
  match error_response error with
  | None => Throw (TypeError "Cannot destructure property 'status' of 'error.response' as it is undefined.")
  | Some r =>
      let errorMessage := or_else (body r ≫= (.!! "message")) "An unexpected error occurred." in
      if status r =? 400 then logger_error "Bad Request: " (Text errorMessage)
      else if status r =? 401 then
        logger_error "Unauthorized: Please log in again." NoData;;
        handleLogout
      else if status r =? 403 then
        logger_error "Forbidden: You do not have access to this resource." NoData
      else if status r =? 404 then
        logger_error "Not Found: The requested resource could not be found." NoData
      else if status r =? 500 then
        logger_error "Server Error: An internal server error occurred." NoData
      else logger_error "Default Error: " (Text errorMessage)
  end.

(** Refresh Token Logic *)
Definition refreshTokens : Prog (option string) :=
  try_catch
    (refreshToken ← mmkv_getString "refresh_token";
     match refreshToken with
     | Some token =>
         if truthy refreshToken then
           response ← axios_post REFRESH_TOKEN_PATH {[ "refreshToken" := token ]};
           match body response with
           | Some d =>
               let accessToken := d !! "accessToken" in
               let newRefreshToken := d !! "refresh_token" in
               mmkv_set "refresh_token" newRefreshToken;;
               mmkv_set "access_token" accessToken;;
               Ret accessToken
           | None =>
               Throw (TypeError "Cannot destructure property 'accessToken' of 'response.data' as it is undefined.")
           end
         else Throw (Error "No refresh token available.")
     | None => Throw (Error "No refresh token available.")
     end)
    (λ error,
       mmkv_delete "access_token";;
       mmkv_delete "refresh_token";;
       logger_error "Token Refresh Error:" (Thrown error);;
       Ret None).

(** The two branches of the response interceptor that run when the server
    did not answer. *)
Definition reportNoResponse (error : JsError) : Prog unit :=
  if error_request error then
    logger_error "No Response from Server: " RequestObject;;
    logger_error "Network Error: Please check your internet connection." NoData
  else
    logger_error "Request Setup Error: " (Text (error_message error));;
    logger_error "Error: An unexpected error occurred." NoData.

(** Response interceptor (rejected handler).  [retry] is the client itself,
    called on the original request. *)
Definition responseRejected (retry : Config → Prog Response) (error : JsError) : Prog Response :=
  let reject : Prog Response := Throw (Error (error_message error)) in
  match error_response error, error_config error with
  | Some r, Some originalRequest =>
      if (status r =? 401) && negb (_retry originalRequest) then
        let originalRequest := set_retry originalRequest in
        newAccessToken ← refreshTokens;
        match newAccessToken with
        | Some token =>
            if truthy newAccessToken then
              match headers originalRequest with
              | Some h => retry (set_Authorization originalRequest h token)
              | None => Throw (TypeError "Cannot set properties of undefined (setting 'Authorization')")
              end
            else handleLogout;; reject
        | None => handleLogout;; reject
        end
      else handleApiError error;; reject
  | _, _ => reportNoResponse error;; reject
  end.

(** [apiClient(config)]: merge with the instance defaults, run the request
    interceptors (the token interceptor, registered last, runs first), hand
    the request to the adapter, then run the response interceptors in
    registration order.  [fuel] bounds the nesting of retries. *)
Fixpoint apiClient (fuel : nat) (cfg : Config) : Prog Response :=
  match fuel with
  | O => Unfinished
  | S fuel' =>
      cfg ← requestInterceptor (mergeConfig apiClient_defaults cfg);
      AxiosLog requestLogger (Ret tt);;
      try_catch
        (response ← dispatchRequest api_client cfg;
         AxiosLog responseLogger (Ret tt);;
         Ret response)
        (λ error,
           AxiosLog errorLogger (Ret tt);;
           responseRejected (apiClient fuel') error)
  end.

(** ** Statement vocabulary that mentions the client *)

(** [send]: one logical call through the authenticated client. *)
Definition send (server : Server) (s : gmap string string) (cfg : Config)
  : World * Settled Response :=
  run server (apiClient 2 cfg) (fresh s).

(** How [refreshTokens] ends on its failure path: the catch block logs the
    error and returns [null], unless the logger raises. *)
Definition refresh_failed : Settled (option string) :=
  if __DEV__ then Fulfilled None else Rejected (TypeError not_a_function).



(** What a call of [refreshTokens] can amount to. *)
Inductive RefreshResult (w : World) : World * Settled (option string) → Prop :=
| refresh_no_token :
    truthy (store w !! "refresh_token") = false →
    RefreshResult w (refresh_failure (Error "No refresh token available.") w, refresh_failed)
| refresh_rejected token e w1 :
    store w !! "refresh_token" = Some token → token ≠ "" →
    trace w1 = trace w ++ [EvSend axios (exchange_request REFRESH_TOKEN_PATH token)] →
    RefreshResult w (refresh_failure e w1, refresh_failed)
| refresh_fulfilled token accessToken newRefreshToken :
    store w !! "refresh_token" = Some token → token ≠ "" →
    RefreshResult w
      (refresh_success accessToken newRefreshToken
         (emit (EvSend axios (exchange_request REFRESH_TOKEN_PATH token)) w),
       Fulfilled (Some accessToken)).



(** [cfgs] are issued one after the other, before any response arrives. *)
Definition launch_from (sys : System Response) (cfgs : list Config) : System Response :=
  foldl (λ sys cfg, spawn (apiClient 2 cfg) sys) sys cfgs.

Definition launch (cfgs : list Config) (s : gmap string string) : System Response :=
  launch_from {| world := fresh s; pool := [] |} cfgs.

(** ** [productApi] of [src/api/product.api.ts] *)

Definition apiClient_get (path : string) : Prog Response :=
  apiClient 2 (request_config "get" path None).

Definition apiClient_delete (path : string) : Prog Response :=
  apiClient 2 (request_config "delete" path None).

Definition apiClient_post (path : string) (payload : gmap string string) : Prog Response :=
  apiClient 2 (request_config "post" path (Some payload)).

Definition apiClient_put (path : string) (payload : gmap string string) : Prog Response :=
  apiClient 2 (request_config "put" path (Some payload)).

(** [getProducts(page = 1, limit = 20)]: an omitted argument is [None]. *)
Definition getProducts (page limit : option Z) : Prog (option (gmap string string)) :=
  response ← apiClient_get
               ("/products?page=" +:+ number_toString (default 1 page) +:+
                "&limit=" +:+ number_toString (default 20 limit));
  Ret (body response).

Definition getProduct (id : string) : Prog (option (gmap string string)) :=
  response ← apiClient_get ("/products/" +:+ id);
  Ret (body response).

Definition createProduct (payload : gmap string string)
  : Prog (option (gmap string string)) :=
  response ← apiClient_post "/products" payload;
  Ret (body response).

Definition updateProduct (id : string) (payload : gmap string string)
  : Prog (option (gmap string string)) :=
  response ← apiClient_put ("/products/" +:+ id) payload;
  Ret (body response).

Definition deleteProduct (id : string) : Prog unit :=
  apiClient_delete ("/products/" +:+ id);;
  Ret tt.

Definition searchProducts (query : string) : Prog (option (gmap string string)) :=
  response ← apiClient_get ("/products/search?q=" +:+ query);
  Ret (body response).

End Build.

(** ** General facts about the semantics *)

Lemma sends_app inst t1 t2 : sends inst (t1 ++ t2) = sends inst t1 ++ sends inst t2.
Proof.
  induction t1 as [|[i c| |] t1 IH]; simpl; auto.
  destruct (same_instance i inst); simpl; congruence.
Qed.

Lemma logs_app t1 t2 : logs (t1 ++ t2) = logs t1 ++ logs t2.
Proof. induction t1 as [|[| |] t1 IH]; simpl; congruence. Qed.

(** Sequencing: the second program starts in the world the first one left,
    and is skipped when the first one throws. *)
Lemma run_bind {A B} server (p : Prog A) (f : A → Prog B) w :
  run server (bind p f) w =
  match run server p w with
  | (w', Fulfilled a) => run server (f a) w'
  | (w', Rejected e) => (w', Rejected e)
  | (w', OutOfFuel) => (w', OutOfFuel)
  end.
Proof. revert w. induction p; intros w; simpl; auto. Qed.

Lemma run_try_catch {A} server (p : Prog A) (h : JsError → Prog A) w :
  run server (try_catch p h) w =
  match run server p w with
  | (w', Rejected e) => run server (h e) w'
  | other => other
  end.
Proof.
  revert w. induction p; intros w; simpl; auto.
Qed.

(** The solitary reading is the event-loop reading with every outcome
    delivered as soon as it is asked for. *)
Lemma sends_emit_same inst cfg w :
  sends inst (trace (emit (EvSend inst cfg) w)) = sends inst (trace w) ++ [cfg].
Proof. simpl. rewrite sends_app. simpl. by destruct inst. Qed.

Lemma run_advance {R} server (p : Prog R) w :
  run server p w =
  match advance p w with
  | (w', Done r) => (w', r)
  | (w', Awaiting inst cfg k) =>
      run server (k (server inst (Nat.pred (length (sends inst (trace w')))))) w'
  end.
Proof.
  revert w. induction p; intros w; simpl; auto.
  rewrite sends_app, length_app. simpl.
  replace (same_instance inst inst) with true by (by destruct inst).
  simpl. by rewrite Nat.add_1_r.
Qed.

(** A program never rewrites history: it only appends to the trace. *)
Lemma run_trace_extends {R} server (p : Prog R) w :
  ∃ t, trace (run server p w).1 = trace w ++ t.
Proof.
  revert w.
  induction p as [r|e| |key k IH|key value k IH|key k IH|lvl msg d k IH|h k IH|inst cfg k IH];
    intros w; simpl; try (exists []; by rewrite app_nil_r); auto.
  - apply (IH (write key value w)).
  - apply (IH (remove key w)).
  - destruct (IH (emit (EvLog lvl msg d) w)) as [t Ht].
    exists (EvLog lvl msg d :: t). rewrite Ht. simpl. by rewrite <- app_assoc.
  - destruct (IH (emit (EvAxiosLogger h) w)) as [t Ht].
    exists (EvAxiosLogger h :: t). rewrite Ht. simpl. by rewrite <- app_assoc.
  - destruct (IH (server inst (length (sends inst (trace w)))) (emit (EvSend inst cfg) w)) as [t Ht].
    exists (EvSend inst cfg :: t). rewrite Ht. simpl. by rewrite <- app_assoc.
Qed.

(** ** The logger *)


(** The client raises what the method of the logger raises. *)
Lemma Logger_call_raises dev stringify msg d :
  (Logger_call dev stringify LError msg d).2 = rnLogger_raises dev LError ∧
  (Logger_call dev stringify LDebug msg d).2 =
    (if dev then rnLogger_raises dev LDebug else None).
Proof. by destruct dev. Qed.

Lemma sink_output_app dev stringify t1 t2 :
  sink_output dev stringify (t1 ++ t2) =
  sink_output dev stringify t1 ++ sink_output dev stringify t2.
Proof.
  induction t1 as [|[| |] t1 IH]; simpl; auto. by rewrite IH, app_assoc.
Qed.

Lemma recorded_errors_app l1 l2 :
  recorded_errors (l1 ++ l2) = recorded_errors l1 ++ recorded_errors l2.
Proof. induction l1 as [|[| |] l1 IH]; simpl; congruence. Qed.

Lemma crashlytics_lines_app l1 l2 :
  crashlytics_lines (l1 ++ l2) = crashlytics_lines l1 ++ crashlytics_lines l2.
Proof. induction l1 as [|[| |] l1 IH]; simpl; congruence. Qed.

(** ** Logout *)

Lemma run_handleLogout dev server w :
  run server (handleLogout dev) w = (logged_out w, Fulfilled tt).
Proof. by destruct dev. Qed.

Lemma logout_clears (s : gmap string string) :
  delete "refresh_token" (delete "access_token" s) !! "access_token" = None ∧
  delete "refresh_token" (delete "access_token" s) !! "refresh_token" = None.
Proof. split; by simplify_map_eq. Qed.

Lemma logout_twice (s : gmap string string) :
  delete "refresh_token" (delete "access_token"
    (delete "refresh_token" (delete "access_token" s))) =
  delete "refresh_token" (delete "access_token" s).
Proof.
  apply map_eq. intros key. rewrite !lookup_delete.
  by repeat case_decide.
Qed.

(** C7, as the code has it. Two invocations of [handleLogout] in a row both
    complete without raising, in either build; the first removes both
    tokens from the store and the second leaves the store exactly as the
    first left it.  No logout signal is emitted: the navigation to the
    login screen is a comment, and apart from the store each invocation
    only calls [logger.debug], which prints one console line in a
    development build and reaches no sink at all in a production build. *)
Theorem handleLogout_idempotent dev stringify server w :
  ∃ w1 w2,
    run server (handleLogout dev) w = (w1, Fulfilled tt) ∧
    run server (handleLogout dev) w1 = (w2, Fulfilled tt) ∧
    store w1 !! "access_token" = None ∧
    store w1 !! "refresh_token" = None ∧
    store w2 = store w1 ∧
    trace w2 =
      trace w ++ [EvLog LDebug "Logout successful and data cleared." NoData;
                  EvLog LDebug "Logout successful and data cleared." NoData] ∧
    sink_output dev stringify (trace w2) =
      sink_output dev stringify (trace w) ++
      (if dev
       then [RnLogger LDebug "Logout successful and data cleared." NoData;
             RnLogger LDebug "Logout successful and data cleared." NoData]
       else []).
Proof.
  eexists _, _. rewrite !run_handleLogout. unfold logged_out.
  split; [reflexivity|]. split; [reflexivity|].
  cbn [store trace emit remove].
  split; [apply logout_clears|]. split; [apply logout_clears|].
  split; [apply logout_twice|].
  split; [by rewrite <- app_assoc|].
  rewrite !sink_output_app. rewrite <- app_assoc. by destruct dev.
Qed.

(** ** The request interceptor *)

Lemma run_requestInterceptor server cfg w :
  run server (requestInterceptor cfg) w =
  (w, Fulfilled
        match store w !! "access_token", headers cfg with
        | Some token, Some h =>
            if String.eqb token "" then cfg else set_Authorization cfg h token
        | _, _ => cfg
        end).
Proof.
  unfold requestInterceptor. simpl.
  destruct (store w !! "access_token") as [token|]; [|done].
  destruct (headers cfg); [|done].
  simpl. by destruct (String.eqb token "").
Qed.

(** C10. The request interceptor is a frame around the Authorization
    header.  It always fulfils and never touches the world.  Without a stored
    access token the configuration comes back unchanged, so a header supplied
    by the caller passes through.  With a stored access token every field
    other than [headers] and every header other than Authorization is
    unchanged, and the Authorization header becomes the bearer form of the
    stored token (an empty token, or a configuration without a header
    object, fails the interceptor's guard and leaves the configuration as it
    was). *)
Theorem requestInterceptor_frame server cfg w :
  ∃ cfg',
    run server (requestInterceptor cfg) w = (w, Fulfilled cfg') ∧
    (store w !! "access_token" = None → cfg' = cfg) ∧
    (∀ token, store w !! "access_token" = Some token →
       url cfg' = url cfg ∧ method cfg' = method cfg ∧
       baseURL cfg' = baseURL cfg ∧ timeout cfg' = timeout cfg ∧
       data cfg' = data cfg ∧ _retry cfg' = _retry cfg ∧
       (∀ name, name ≠ "Authorization" →
          headers cfg' ≫= (.!! name) = headers cfg ≫= (.!! name)) ∧
       (∀ h, headers cfg = Some h → token ≠ "" →
          headers cfg' = Some (<["Authorization" := "Bearer " +:+ token]> h)) ∧
       (headers cfg = None ∨ token = "" → cfg' = cfg)).
Proof.
  eexists. split; [apply run_requestInterceptor|].
  split; [by intros ->|].
  intros token ->.
  destruct (headers cfg) as [h|] eqn:Hh; simpl.
  - destruct (String.eqb_spec token "") as [->|Hne]; simpl.
    + rewrite Hh. repeat split; auto. by intros h' _ [].
    + repeat split; auto.
      * intros name Hname. simpl. by rewrite lookup_insert_ne.
      * by intros h' [= ->] _.
      * by intros [|].
  - rewrite Hh. repeat split; auto. by intros h'.
Qed.

(** ** Token refresh *)

(** Symbolic execution of the client's own definitions, leaving the store,
    the headers and the status arithmetic folded. *)
Ltac exec :=
  cbn [run advance bind try_catch
       mmkv_getString mmkv_set mmkv_delete logger_error logger_debug
       rnLogger_raises severity transport rank Nat.ltb Nat.leb
       refresh_failed then_rejects
       axios_post dispatchRequest settle
       handleLogout handleApiError reportNoResponse requestInterceptor
       error_response error_request error_config error_message
       response request config message status body
       store trace fst snd].

Variable server : Server.

Lemma truthy_Some token : truthy (Some token) = true ↔ token ≠ "".
Proof.
  simpl. destruct (String.eqb_spec token ""); simpl; split; congruence.
Qed.

Lemma truthy_false v : truthy v = false ↔ v = None ∨ v = Some "".
Proof.
  destruct v as [token|]; simpl; [|by split; [left|]].
  destruct (String.eqb_spec token "") as [->|Hne]; simpl.
  - by split; [right|].
  - split; [done|]. intros [|[=]]; congruence.
Qed.

Lemma run_refreshTokens_no_token dev w :
  truthy (store w !! "refresh_token") = false →
  run server (refreshTokens dev) w =
  (refresh_failure (Error "No refresh token available.") w, refresh_failed dev).
Proof.
  intros H. unfold refreshTokens. destruct dev; exec.
  - destruct (store w !! "refresh_token") as [token|]; [|done]. by rewrite H.
  - destruct (store w !! "refresh_token") as [token|]; [|done]. by rewrite H.
Qed.

(** With a refresh token in the store, the exchange is posted once, and what
    follows is decided by its outcome alone. *)
Lemma run_refreshTokens_token dev w token :
  store w !! "refresh_token" = Some token → token ≠ "" →
  let w1 := emit (EvSend axios (exchange_request REFRESH_TOKEN_PATH token)) w in
  run server (refreshTokens dev) w =
  match server axios (length (sends axios (trace w))) with
  | Responded r =>
      if validateStatus (status r) then
        match body r with
        | Some d =>
            match d !! "refresh_token", d !! "accessToken" with
            | Some newRefreshToken, Some accessToken =>
                (refresh_success accessToken newRefreshToken w1, Fulfilled (Some accessToken))
            | Some newRefreshToken, None =>
                (refresh_failure
                   (Error "MMKV::set: 'value' argument is not of type bool, number, string or buffer!")
                   (write "refresh_token" newRefreshToken w1), refresh_failed dev)
            | None, _ =>
                (refresh_failure
                   (Error "MMKV::set: 'value' argument is not of type bool, number, string or buffer!")
                   w1, refresh_failed dev)
            end
        | None =>
            (refresh_failure
               (TypeError "Cannot destructure property 'accessToken' of 'response.data' as it is undefined.")
               w1, refresh_failed dev)
        end
      else
        (refresh_failure
           (AxiosErr {| message := "Request failed with status code " +:+ pretty (status r);
                        config := exchange_request REFRESH_TOKEN_PATH token;
                        request := true; response := Some r |}) w1, refresh_failed dev)
  | NoResponse msg =>
      (refresh_failure
         (AxiosErr {| message := msg; config := exchange_request REFRESH_TOKEN_PATH token;
                      request := true; response := None |}) w1, refresh_failed dev)
  | SetupFailed msg =>
      (refresh_failure
         (AxiosErr {| message := msg; config := exchange_request REFRESH_TOKEN_PATH token;
                      request := false; response := None |}) w1, refresh_failed dev)
  end.
Proof.
  intros Hs Hne. apply truthy_Some in Hne. unfold refreshTokens.
  destruct dev; exec; rewrite Hs, Hne; exec;
    (destruct (server axios _) as [r|msg|msg]; exec; try done;
     destruct (validateStatus (status r)); exec; [|done];
     destruct (body r) as [d|]; exec; [|done];
     destruct (d !! "refresh_token"); exec; [|done];
     destruct (d !! "accessToken"); exec; done).
Qed.


Lemma refreshTokens_result dev w :
  RefreshResult dev w (run server (refreshTokens dev) w).
Proof.
  destruct (truthy (store w !! "refresh_token")) eqn:Ht.
  - destruct (store w !! "refresh_token") as [token|] eqn:Hs; [|done].
    apply truthy_Some in Ht.
    rewrite (run_refreshTokens_token dev w token Hs Ht).
    destruct (server axios _) as [r|msg|msg];
      try (by eapply refresh_rejected).
    destruct (validateStatus (status r)); [|by eapply refresh_rejected].
    destruct (body r) as [d|]; [|by eapply refresh_rejected].
    destruct (d !! "refresh_token"); [|by eapply refresh_rejected].
    destruct (d !! "accessToken"); [by eapply refresh_fulfilled|].
    by eapply refresh_rejected.
  - rewrite (run_refreshTokens_no_token dev w Ht). by constructor.
Qed.


(** C5, as the code has it. A successful exchange whose body carries an
    access token and a rotated refresh token writes both to the store and
    fulfils with the access token, leaving every other key alone, in either
    build. *)
Theorem refreshTokens_writes_both dev w token r d accessToken newRefreshToken :
  store w !! "refresh_token" = Some token → token ≠ "" →
  server axios (length (sends axios (trace w))) = Responded r →
  validateStatus (status r) = true →
  body r = Some d →
  d !! "accessToken" = Some accessToken →
  d !! "refresh_token" = Some newRefreshToken →
  ∃ w',
    run server (refreshTokens dev) w = (w', Fulfilled (Some accessToken)) ∧
    store w' !! "access_token" = Some accessToken ∧
    store w' !! "refresh_token" = Some newRefreshToken ∧
    (∀ key, key ≠ "access_token" → key ≠ "refresh_token" →
       store w' !! key = store w !! key) ∧
    sends axios (trace w') = sends axios (trace w) ++ [exchange_request REFRESH_TOKEN_PATH token] ∧
    logs (trace w') = logs (trace w).
Proof.
  intros Hs Hne Ho Hv Hb Ha Hrt.
  rewrite (run_refreshTokens_token dev w token Hs Hne), Ho, Hv, Hb, Ha, Hrt.
  eexists. split; [reflexivity|]. simpl.
  split; [by simplify_map_eq|]. split; [by simplify_map_eq|].
  split; [intros key H1 H2; by simplify_map_eq|].
  rewrite sends_app, logs_app. simpl. by rewrite app_nil_r.
Qed.

(** ** Attempts and the response interceptor *)

Lemma sends_emit inst ev w :
  sends inst (trace (emit ev w)) = sends inst (trace w) ++ sends inst [ev].
Proof. simpl. apply sends_app. Qed.

(** One attempt: the request leaves through the interceptor and the
    adapter; an accepted response is returned as it is, a rejected outcome
    enters the response interceptor. *)
Lemma run_apiClient_attempt dev fuel cfg w :
  let sent := outgoing (store w) cfg in
  let w1 := emit (EvSend api_client sent) (emit (EvAxiosLogger requestLogger) w) in
  run server (apiClient dev (S fuel) cfg) w =
  run server
    (try_catch
       (response ← settle sent (server api_client (length (sends api_client (trace w))));
        AxiosLog responseLogger (Ret tt);;
        Ret response)
       (λ error,
          AxiosLog errorLogger (Ret tt);;
          responseRejected dev (apiClient dev fuel) error))
    w1.
Proof.
  intros sent w1. cbn [apiClient].
  rewrite run_bind, run_requestInterceptor. fold (outgoing (store w) cfg). fold sent.
  exec. rewrite sends_emit. simpl (sends _ [_]). by rewrite app_nil_r.
Qed.

Lemma run_apiClient_fulfilled dev fuel cfg w r :
  server api_client (length (sends api_client (trace w))) = Responded r →
  validateStatus (status r) = true →
  run server (apiClient dev (S fuel) cfg) w =
  (emit (EvAxiosLogger responseLogger)
     (emit (EvSend api_client (outgoing (store w) cfg))
        (emit (EvAxiosLogger requestLogger) w)),
   Fulfilled r).
Proof.
  intros Ho Hv. rewrite run_apiClient_attempt, Ho. exec. by rewrite Hv.
Qed.

Lemma run_apiClient_rejected dev fuel cfg w a :
  rejection (outgoing (store w) cfg)
    (server api_client (length (sends api_client (trace w)))) = Some a →
  run server (apiClient dev (S fuel) cfg) w =
  run server
    (responseRejected dev (apiClient dev fuel) (AxiosErr a))
    (emit (EvAxiosLogger errorLogger)
       (emit (EvSend api_client (outgoing (store w) cfg))
          (emit (EvAxiosLogger requestLogger) w))).
Proof.
  intros Ho. rewrite run_apiClient_attempt.
  unfold rejection in Ho.
  destruct (server api_client _) as [r|msg|msg]; exec.
  - destruct (validateStatus (status r)); [done|]. by injection Ho as <-.
  - by injection Ho as <-.
  - by injection Ho as <-.
Qed.

(** A handler that runs [p] and then rejects with [e]. *)
Lemma run_then_reject (p : Prog unit) e w :
  run server (p;; Throw e) w =
  ((run server p w).1, then_rejects (run server p w).2 e).
Proof.
  rewrite run_bind. by destruct (run server p w) as [w' [[]|e'|]].
Qed.

(** The two branches that only log.  In a production build the first
    [logger.error] raises, and the second line is never logged. *)
Lemma run_reportNoResponse dev e w :
  run server (reportNoResponse dev e) w =
  if error_request e then
    if dev then
      (emit (EvLog LError "Network Error: Please check your internet connection." NoData)
         (emit (EvLog LError "No Response from Server: " RequestObject) w),
       Fulfilled tt)
    else
      (emit (EvLog LError "No Response from Server: " RequestObject) w,
       Rejected (TypeError not_a_function))
  else
    if dev then
      (emit (EvLog LError "Error: An unexpected error occurred." NoData)
         (emit (EvLog LError "Request Setup Error: " (Text (error_message e))) w),
       Fulfilled tt)
    else
      (emit (EvLog LError "Request Setup Error: " (Text (error_message e))) w,
       Rejected (TypeError not_a_function)).
Proof.
  unfold reportNoResponse. by destruct (error_request e), dev.
Qed.

(** [handleApiError] logs one error line.  In a development build it then
    returns, after [handleLogout] when the status is 401; in a production
    build the logger raises, and the 401 case never reaches
    [handleLogout]. *)
Lemma run_handleApiError dev a r w :
  response a = Some r →
  ∃ msg d,
    run server (handleApiError dev (AxiosErr a)) w =
      (if dev then
         (if status r =? 401 then logged_out (emit (EvLog LError msg d) w)
          else emit (EvLog LError msg d) w,
          Fulfilled tt)
       else (emit (EvLog LError msg d) w, Rejected (TypeError not_a_function))) ∧
    (status r = 401 → msg = "Unauthorized: Please log in again." ∧ d = NoData).
Proof.
  intros Hr. unfold handleApiError. exec. rewrite Hr.
  destruct (status r =? 401) eqn:H401.
  { apply Z.eqb_eq in H401. rewrite H401.
    change (401 =? 400) with false. change (401 =? 401) with true. cbv iota.
    eexists _, _. split; [|done]. by destruct dev. }
  apply Z.eqb_neq in H401.
  repeat (match goal with |- context [if ?b =? ?c then _ else _] => destruct (b =? c) end);
    eexists _, _; (split; [by destruct dev|done]).
Qed.

(** The response interceptor, branch by branch. *)
Lemma run_responseRejected_no_response dev retry a w :
  response a = None →
  run server (responseRejected dev retry (AxiosErr a)) w =
  ((run server (reportNoResponse dev (AxiosErr a)) w).1,
   then_rejects (run server (reportNoResponse dev (AxiosErr a)) w).2 (Error (message a))).
Proof.
  intros H. unfold responseRejected. exec. rewrite H. apply run_then_reject.
Qed.

Lemma run_responseRejected_other dev retry a r w :
  response a = Some r →
  (status r =? 401) && negb (_retry (config a)) = false →
  run server (responseRejected dev retry (AxiosErr a)) w =
  ((run server (handleApiError dev (AxiosErr a)) w).1,
   then_rejects (run server (handleApiError dev (AxiosErr a)) w).2 (Error (message a))).
Proof.
  intros Hr Hc. unfold responseRejected. exec. rewrite Hr, Hc. apply run_then_reject.
Qed.

Lemma run_responseRejected_refresh dev retry a r w :
  response a = Some r →
  status r = 401 → _retry (config a) = false →
  run server (responseRejected dev retry (AxiosErr a)) w =
  match run server (refreshTokens dev) w with
  | (w1, Fulfilled (Some token)) =>
      if String.eqb token "" then (logged_out w1, Rejected (Error (message a)))
      else
        match headers (config a) with
        | Some h => run server (retry (set_Authorization (set_retry (config a)) h token)) w1
        | None =>
            (w1, Rejected (TypeError "Cannot set properties of undefined (setting 'Authorization')"))
        end
  | (w1, Fulfilled None) => (logged_out w1, Rejected (Error (message a)))
  | (w1, Rejected e) => (w1, Rejected e)
  | (w1, OutOfFuel) => (w1, OutOfFuel)
  end.
Proof.
  intros Hr Hs Hc. unfold responseRejected. exec. rewrite Hr, Hs, Hc.
  change ((401 =? 401) && negb false) with true. cbv iota.
  rewrite run_bind.
  destruct (run server (refreshTokens dev) w) as [w1 [[token|]|e|]]; try done.
  - cbn [truthy]. destruct (String.eqb token ""); cbn [negb].
    + by destruct dev.
    + cbn [set_retry headers]. by destruct (headers (config a)).
  - by destruct dev.
Qed.

Lemma outgoing_retry s cfg : _retry (outgoing s cfg) = _retry cfg.
Proof.
  unfold outgoing. cbn [mergeConfig headers].
  destruct (s !! "access_token") as [token|]; [destruct (String.eqb token "")|];
    cbn [mergeConfig set_Authorization _retry apiClient_defaults];
    apply orb_false_r.
Qed.

Lemma outgoing_request s cfg :
  url (outgoing s cfg) = url cfg ∧ method (outgoing s cfg) = method cfg ∧
  data (outgoing s cfg) = data cfg.
Proof.
  unfold outgoing. cbn [mergeConfig headers].
  by destruct (s !! "access_token") as [token|]; [destruct (String.eqb token "")|].
Qed.

Lemma outgoing_url s cfg : url (outgoing s cfg) = url cfg.
Proof. apply outgoing_request. Qed.

Lemma outgoing_method s cfg : method (outgoing s cfg) = method cfg.
Proof. apply outgoing_request. Qed.

Lemma outgoing_data s cfg : data (outgoing s cfg) = data cfg.
Proof. apply outgoing_request. Qed.

Lemma outgoing_headers s cfg : ∃ h, headers (outgoing s cfg) = Some h.
Proof.
  unfold outgoing. cbn [mergeConfig headers].
  destruct (s !! "access_token") as [token|]; [destruct (String.eqb token "")|];
    cbn [mergeConfig set_Authorization headers]; eauto.
Qed.

(** With a usable access token in the store, the request that leaves carries
    it as its bearer credential, whatever header the caller or an earlier
    attempt had put there. *)
Lemma outgoing_Authorization s cfg token :
  s !! "access_token" = Some token → token ≠ "" →
  Authorization (outgoing s cfg) = Some ("Bearer " +:+ token).
Proof.
  intros Hs Hne. unfold outgoing, Authorization. cbn [mergeConfig headers].
  rewrite Hs. apply String.eqb_neq in Hne. rewrite Hne.
  cbn [set_Authorization headers]. simpl. apply lookup_insert_eq.
Qed.

Lemma rejection_unauthorized cfg b :
  rejection cfg (unauthorized b) =
  Some {| message := "Request failed with status code 401"; config := cfg;
          request := true; response := Some {| status := 401; body := b |} |}.
Proof. reflexivity. Qed.

Ltac trace_simpl :=
  cbn [trace store emit write remove logged_out refresh_failure refresh_success fresh fst snd];
  rewrite ?sends_app, ?logs_app;
  cbn [sends logs same_instance app length];
  rewrite ?app_nil_r.


Lemma rejection_config cfg o a : rejection cfg o = Some a → config a = cfg.
Proof.
  destruct o as [r|msg|msg]; simpl; [destruct (validateStatus (status r))|..];
    intros [= <-]; done.
Qed.

Lemma rejection_None cfg o :
  rejection cfg o = None → ∃ r, o = Responded r ∧ validateStatus (status r) = true.
Proof.
  destruct o as [r|msg|msg]; simpl; [|done..].
  destruct (validateStatus (status r)) eqn:Hv; [eauto|done].
Qed.

(** [handleApiError] and the no-response branch hand nothing to a
    transport, and never run out of fuel. *)
Lemma handleApiError_sends dev a r w inst :
  response a = Some r →
  sends inst (trace (run server (handleApiError dev (AxiosErr a)) w).1) = sends inst (trace w).
Proof.
  intros Hr. destruct (run_handleApiError dev a r w Hr) as (msg & d & -> & _).
  destruct dev, (status r =? 401); by trace_simpl.
Qed.

Lemma handleApiError_settles dev a r w :
  response a = Some r →
  (run server (handleApiError dev (AxiosErr a)) w).2 ≠ OutOfFuel.
Proof.
  intros Hr. destruct (run_handleApiError dev a r w Hr) as (msg & d & -> & _).
  by destruct dev.
Qed.

Lemma reportNoResponse_sends dev e w inst :
  sends inst (trace (run server (reportNoResponse dev e) w).1) = sends inst (trace w).
Proof.
  rewrite run_reportNoResponse. destruct (error_request e), dev; by trace_simpl.
Qed.

Lemma reportNoResponse_settles dev e w :
  (run server (reportNoResponse dev e) w).2 ≠ OutOfFuel.
Proof.
  rewrite run_reportNoResponse. by destruct (error_request e), dev.
Qed.

Lemma then_rejects_settles r e : r ≠ OutOfFuel → then_rejects r e ≠ OutOfFuel.
Proof. by destruct r. Qed.

(** An attempt whose configuration is already marked [_retry] is final: its
    outcome does not depend on the client it would retry with, it makes one
    request on the client's transport and none on the bare one. *)
Lemma final_attempt dev retry1 retry2 a w :
  _retry (config a) = true →
  run server (responseRejected dev retry1 (AxiosErr a)) w =
  run server (responseRejected dev retry2 (AxiosErr a)) w.
Proof.
  intros Hretry. destruct (response a) as [r|] eqn:Hr.
  - rewrite !(run_responseRejected_other _ _ a r) by (by rewrite ?Hretry, ?andb_false_r). done.
  - by rewrite !run_responseRejected_no_response.
Qed.

Lemma final_attempt_fuel dev fuel1 fuel2 cfg w :
  _retry cfg = true →
  run server (apiClient dev (S fuel1) cfg) w =
  run server (apiClient dev (S fuel2) cfg) w.
Proof.
  intros Hretry.
  destruct (rejection (outgoing (store w) cfg)
              (server api_client (length (sends api_client (trace w))))) as [a|] eqn:Hrej.
  - rewrite !(run_apiClient_rejected _ _ _ _ a Hrej).
    apply final_attempt.
    by rewrite (rejection_config _ _ _ Hrej), outgoing_retry.
  - apply rejection_None in Hrej as (r & Ho & Hv).
    by rewrite !(run_apiClient_fulfilled _ _ _ _ r Ho Hv).
Qed.

Lemma final_attempt_settles dev fuel cfg w :
  _retry cfg = true →
  ∃ w' r,
    run server (apiClient dev (S fuel) cfg) w = (w', r) ∧
    r ≠ OutOfFuel ∧
    sends axios (trace w') = sends axios (trace w) ∧
    sends api_client (trace w') = sends api_client (trace w) ++ [outgoing (store w) cfg].
Proof.
  intros Hretry.
  destruct (rejection (outgoing (store w) cfg)
              (server api_client (length (sends api_client (trace w))))) as [a|] eqn:Hrej.
  - rewrite (run_apiClient_rejected _ _ _ _ a Hrej).
    assert (_retry (config a) = true) as Ha
      by (by rewrite (rejection_config _ _ _ Hrej), outgoing_retry).
    destruct (response a) as [r|] eqn:Hr.
    + rewrite (run_responseRejected_other _ _ a r) by (by rewrite ?Ha, ?andb_false_r).
      eexists _, _. split; [reflexivity|].
      split; [by apply then_rejects_settles, (handleApiError_settles _ a r)|].
      rewrite !(handleApiError_sends _ a r) by done. by trace_simpl.
    + rewrite run_responseRejected_no_response by done.
      eexists _, _. split; [reflexivity|].
      split; [apply then_rejects_settles, reportNoResponse_settles|].
      rewrite !reportNoResponse_sends. by trace_simpl.
  - apply rejection_None in Hrej as (r & Ho & Hv).
    rewrite (run_apiClient_fulfilled _ _ _ _ r Ho Hv).
    eexists _, _. split; [reflexivity|]. split; [done|]. by trace_simpl.
Qed.

(** ** One logical call *)





(** ** Termination and the bare transport *)

Lemma responseRejected_fuel dev fuel a w :
  run server (responseRejected dev (apiClient dev (S fuel)) (AxiosErr a)) w =
  run server (responseRejected dev (apiClient dev 1) (AxiosErr a)) w.
Proof.
  destruct (response a) as [r|] eqn:Hr;
    [|by rewrite !run_responseRejected_no_response].
  destruct ((status r =? 401) && negb (_retry (config a))) eqn:Hc;
    [|by rewrite !(run_responseRejected_other _ _ a r)].
  apply andb_true_iff in Hc as [Hs Hretry].
  apply Z.eqb_eq in Hs. apply negb_true_iff in Hretry.
  rewrite !(run_responseRejected_refresh _ _ a r) by done.
  destruct (run server (refreshTokens dev) w) as [w1 [[token|]|e|]]; try done.
  destruct (String.eqb token ""); [done|].
  destruct (headers (config a)); [|done].
  by apply final_attempt_fuel.
Qed.

(** Two units of fuel are all the client ever uses: the retried request is
    marked [_retry], and a marked request is never retried. *)
Theorem apiClient_fuel_irrelevant dev fuel cfg w :
  run server (apiClient dev (S (S fuel)) cfg) w =
  run server (apiClient dev 2 cfg) w.
Proof.
  destruct (rejection (outgoing (store w) cfg)
              (server api_client (length (sends api_client (trace w))))) as [a|] eqn:Hrej.
  - rewrite !(run_apiClient_rejected _ _ _ _ a Hrej). apply responseRejected_fuel.
  - apply rejection_None in Hrej as (r & Ho & Hv).
    by rewrite !(run_apiClient_fulfilled _ _ _ _ r Ho Hv).
Qed.

Lemma refresh_failed_settles dev : refresh_failed dev ≠ OutOfFuel.
Proof. by destruct dev. Qed.

(** Every logical call settles, after at most two requests on the client's
    transport and at most one on the bare one. *)
Lemma call_settles dev cfg w :
  ∃ w' r,
    run server (apiClient dev 2 cfg) w = (w', r) ∧
    r ≠ OutOfFuel ∧
    (length (sends axios (trace w')) ≤ length (sends axios (trace w)) + 1)%nat ∧
    (length (sends api_client (trace w')) ≤ length (sends api_client (trace w)) + 2)%nat.
Proof.
  destruct (rejection (outgoing (store w) cfg)
              (server api_client (length (sends api_client (trace w))))) as [a|] eqn:Hrej.
  2:{ apply rejection_None in Hrej as (r & Ho & Hv).
      rewrite (run_apiClient_fulfilled _ _ _ _ r Ho Hv).
      eexists _, _. split; [reflexivity|]. split; [done|].
      trace_simpl. rewrite !length_app. cbn [length]. lia. }
  rewrite (run_apiClient_rejected _ _ _ _ a Hrej).
  destruct (response a) as [r|] eqn:Hr.
  2:{ rewrite run_responseRejected_no_response by done.
      eexists _, _. split; [reflexivity|].
      split; [apply then_rejects_settles, reportNoResponse_settles|].
      rewrite !reportNoResponse_sends. trace_simpl.
      rewrite !length_app. cbn [length]. lia. }
  destruct ((status r =? 401) && negb (_retry (config a))) eqn:Hc.
  2:{ rewrite (run_responseRejected_other _ _ a r) by done.
      eexists _, _. split; [reflexivity|].
      split; [by apply then_rejects_settles, (handleApiError_settles _ a r)|].
      rewrite !(handleApiError_sends _ a r) by done. trace_simpl.
      rewrite !length_app. cbn [length]. lia. }
  apply andb_true_iff in Hc as [Hs Hretry].
  apply Z.eqb_eq in Hs. apply negb_true_iff in Hretry.
  rewrite (run_responseRejected_refresh _ _ a r) by done.
  match goal with |- context [run server (refreshTokens _) ?w0] =>
    destruct (refreshTokens_result dev w0)
      as [Ht|token e w1 Hst Hne Htr|token accessToken newRT Hst Hne]
  end.
  - destruct dev; cbn [refresh_failed];
      (eexists _, _; split; [reflexivity|]; split; [done|]);
      trace_simpl; rewrite !length_app; cbn [length]; lia.
  - destruct dev; cbn [refresh_failed];
      (eexists _, _; split; [reflexivity|]; split; [done|]);
      trace_simpl; rewrite Htr; trace_simpl; rewrite !length_app; cbn [length]; lia.
  - destruct (String.eqb accessToken "").
    { eexists _, _. split; [reflexivity|]. split; [done|].
      trace_simpl. rewrite !length_app. cbn [length]. lia. }
    destruct (headers (config a)) as [h|].
    2:{ eexists _, _. split; [reflexivity|]. split; [done|].
        trace_simpl. rewrite !length_app. cbn [length]. lia. }
    match goal with |- context [run server (apiClient _ 1 ?c) ?w1] =>
      destruct (final_attempt_settles dev 0 c w1 eq_refl) as (w' & res & -> & Hres & Hax & Hapi)
    end.
    eexists _, _. split; [reflexivity|]. split; [done|].
    rewrite Hax, Hapi. trace_simpl. rewrite !length_app. cbn [length]. lia.
Qed.

(** C8. The token exchange goes out on the bare [axios] transport, in
    either build.  [refreshTokens] hands nothing to the authenticated
    client; it posts at most one request, the one built from the stored
    refresh token, which carries no Authorization header whatever access
    token is stored; and whatever the token endpoint answers, a 401
    included, the refresh settles without a further request.  Over a whole
    logical call at most one request reaches the token endpoint, for every
    server. *)
Theorem exchange_on_bare_transport dev :
  (∀ w, let w' := (run server (refreshTokens dev) w).1 in
        sends api_client (trace w') = sends api_client (trace w) ∧
        sends axios (trace w') =
          sends axios (trace w) ++
          match store w !! "refresh_token" with
          | Some token =>
              if String.eqb token "" then []
              else [exchange_request REFRESH_TOKEN_PATH token]
          | None => []
          end) ∧
  (∀ token, Authorization (exchange_request REFRESH_TOKEN_PATH token) = None) ∧
  (∀ s cfg,
     (length (sends axios (trace (send dev server s cfg).1)) ≤ 1)%nat).
Proof.
  split; [|split].
  - intros w w'. subst w'.
    destruct (refreshTokens_result dev w)
      as [Ht|token e w1 Hst Hne Htr|token accessToken newRT Hst Hne].
    + apply truthy_false in Ht as [->| ->]; by trace_simpl.
    + rewrite Hst. apply String.eqb_neq in Hne. rewrite Hne.
      trace_simpl. rewrite Htr. by trace_simpl.
    + rewrite Hst. apply String.eqb_neq in Hne. rewrite Hne. by trace_simpl.
  - done.
  - intros s cfg. unfold send.
    destruct (call_settles dev cfg (fresh s)) as (w' & r & -> & _ & Hax & _).
    exact Hax.
Qed.

(** ** Several calls in flight *)









(** Launching calls and delivering outcomes are steps of the event loop. *)
Lemma launch_from_steps dev (sys : System Response) cfgs :
  rtc step sys (launch_from dev sys cfgs).
Proof.
  revert sys. induction cfgs as [|cfg cfgs IH]; intros sys; [done|].
  cbn [launch_from foldl]. eapply rtc_l; [apply step_spawn|apply IH].
Qed.

Lemma deliver_all_steps {R} sched (sys sys' : System R) :
  deliver_all sched sys = Some sys' → rtc step sys sys'.
Proof.
  revert sys. induction sched as [|[i o] sched IH]; intros sys; cbn.
  - by intros [= ->].
  - destruct (deliver i o sys) as [sys1|] eqn:Hdel; [|done].
    intros Hrun. eapply rtc_l; [by eapply step_deliver|by apply IH].
Qed.





(** * Beyond the claims: the other paths of the client *)

(** A response axios accepts is returned as it came, in either build: one
    request, no refresh, nothing logged, and the store is what it was. *)
Theorem accepted_response_is_returned dev s cfg r :
  server api_client 0%nat = Responded r →
  validateStatus (status r) = true →
  ∃ w',
    send dev server s cfg = (w', Fulfilled r) ∧
    store w' = s ∧
    sends api_client (trace w') = [outgoing s cfg] ∧
    sends axios (trace w') = [] ∧
    logs (trace w') = [].
Proof.
  intros Ho Hv. unfold send.
  erewrite run_apiClient_fulfilled by (cbn [fresh trace sends length]; eauto).
  eexists. split; [reflexivity|]. by trace_simpl.
Qed.





(** After a 401 and an exchange that returns both tokens, the call is the
    second attempt: the same request, marked [_retry] and carrying the new
    token, run in the world where both tokens have been stored. *)
Lemma refreshed_call_retries dev s cfg b token rx d accessToken newRT :
  _retry cfg = false →
  server api_client 0%nat = unauthorized b →
  s !! "refresh_token" = Some token → token ≠ "" →
  server axios 0%nat = Responded rx → validateStatus (status rx) = true →
  body rx = Some d →
  d !! "accessToken" = Some accessToken → accessToken ≠ "" →
  d !! "refresh_token" = Some newRT →
  ∃ h,
    headers (outgoing s cfg) = Some h ∧
    send dev server s cfg =
    run server
      (apiClient dev 1 (set_Authorization (set_retry (outgoing s cfg)) h accessToken))
      (refresh_success accessToken newRT
         (emit (EvSend axios (exchange_request REFRESH_TOKEN_PATH token))
            (emit (EvAxiosLogger errorLogger)
               (emit (EvSend api_client (outgoing s cfg))
                  (emit (EvAxiosLogger requestLogger) (fresh s)))))).
Proof.
  intros Hretry Ho Hs Hne Hx Hv Hb Ha Hat Hrt.
  destruct (outgoing_headers s cfg) as [h Hh]. exists h. split; [done|].
  unfold send.
  erewrite run_apiClient_rejected
    by (cbn [fresh trace sends length store]; rewrite Ho; apply rejection_unauthorized).
  erewrite run_responseRejected_refresh; [|reflexivity|reflexivity|];
    [|by cbn [config]; rewrite outgoing_retry].
  erewrite run_refreshTokens_token; [|cbn [store emit fresh]; exact Hs|exact Hne].
  trace_simpl. rewrite Hx, Hv, Hb, Hrt, Ha.
  apply String.eqb_neq in Hat. rewrite Hat. cbn [config]. by rewrite Hh.
Qed.

(** A call whose token has expired once: after the 401 the tokens are
    exchanged and stored, the same request goes out a second time with the
    new token, and what the second attempt returns is what the caller
    gets.  Nothing is logged and nobody is logged out, in either build. *)
Theorem refreshed_call_is_replayed dev s cfg b token rx d accessToken newRT r2 :
  _retry cfg = false →
  server api_client 0%nat = unauthorized b →
  s !! "refresh_token" = Some token → token ≠ "" →
  server axios 0%nat = Responded rx → validateStatus (status rx) = true →
  body rx = Some d →
  d !! "accessToken" = Some accessToken → accessToken ≠ "" →
  d !! "refresh_token" = Some newRT →
  server api_client 1%nat = Responded r2 → validateStatus (status r2) = true →
  ∃ w' second,
    send dev server s cfg = (w', Fulfilled r2) ∧
    sends api_client (trace w') = [outgoing s cfg; second] ∧
    Authorization second = Some ("Bearer " +:+ accessToken) ∧
    _retry second = true ∧
    url second = url cfg ∧ method second = method cfg ∧ data second = data cfg ∧
    sends axios (trace w') = [exchange_request REFRESH_TOKEN_PATH token] ∧
    store w' !! "access_token" = Some accessToken ∧
    store w' !! "refresh_token" = Some newRT ∧
    logs (trace w') = [].
Proof.
  intros Hretry Ho Hs Hne Hx Hv Hb Ha Hat Hrt Ho2 Hv2.
  destruct (refreshed_call_retries dev s cfg b token rx d accessToken newRT)
    as (h & Hh & ->); try done.
  erewrite run_apiClient_fulfilled by (trace_simpl; eauto).
  eexists _, _. split; [reflexivity|]. trace_simpl.
  split; [reflexivity|].
  split; [apply outgoing_Authorization; [by simplify_map_eq|done]|].
  rewrite outgoing_retry, outgoing_url, outgoing_method, outgoing_data.
  cbn [set_Authorization set_retry url method data _retry].
  rewrite outgoing_url, outgoing_method, outgoing_data.
  repeat split; try done; by simplify_map_eq.
Qed.


(** An exchange that answers with an empty access token counts as a failed
    refresh although axios accepted it: the tokens it carried are stored
    and at once removed by [handleLogout], the request is not sent again,
    and the call is rejected.  No error line is logged on this path, so
    this is what happens in either build. *)
Theorem empty_access_token_logs_out dev s cfg b token rx d newRT :
  _retry cfg = false →
  server api_client 0%nat = unauthorized b →
  s !! "refresh_token" = Some token → token ≠ "" →
  server axios 0%nat = Responded rx → validateStatus (status rx) = true →
  body rx = Some d →
  d !! "accessToken" = Some "" →
  d !! "refresh_token" = Some newRT →
  ∃ w',
    send dev server s cfg =
      (w', Rejected (Error "Request failed with status code 401")) ∧
    sends api_client (trace w') = [outgoing s cfg] ∧
    sends axios (trace w') = [exchange_request REFRESH_TOKEN_PATH token] ∧
    store w' !! "access_token" = None ∧
    store w' !! "refresh_token" = None ∧
    logs (trace w') = [logout_entry].
Proof.
  intros Hretry Ho Hs Hne Hx Hv Hb Ha Hrt. unfold send.
  erewrite run_apiClient_rejected
    by (cbn [fresh trace sends length store]; rewrite Ho; apply rejection_unauthorized).
  erewrite run_responseRejected_refresh; [|reflexivity|reflexivity|];
    [|by cbn [config]; rewrite outgoing_retry].
  erewrite run_refreshTokens_token; [|cbn [store emit fresh]; exact Hs|exact Hne].
  trace_simpl. rewrite Hx, Hv, Hb, Hrt, Ha.
  change (String.eqb "" "") with true. cbv iota.
  eexists. split; [reflexivity|]. trace_simpl.
  repeat split; by simplify_map_eq.
Qed.

(** ** What a caller can and cannot see *)




(** Every call settles, with any amount of fuel from two on, after one or
    two requests on the client's transport, in either build. *)
Theorem every_call_settles dev fuel s cfg :
  ∃ w' r,
    run server (apiClient dev (S (S fuel)) cfg) (fresh s) = (w', r) ∧
    send dev server s cfg = (w', r) ∧
    r ≠ OutOfFuel ∧
    (1 ≤ length (sends api_client (trace w')) ≤ 2)%nat.
Proof.
  rewrite apiClient_fuel_irrelevant. unfold send.
  destruct (call_settles dev cfg (fresh s))
    as (w' & r & Hrun & Hr & _ & Hapi).
  exists w', r. split; [done|]. split; [done|]. split; [done|]. split; [|exact Hapi].
  pose proof (f_equal fst Hrun) as Hw. cbn [fst] in Hw.
  rewrite run_apiClient_attempt in Hw.
  match type of Hw with (run server ?p ?w1).1 = _ =>
    destruct (run_trace_extends server p w1) as [t Ht]; rewrite Hw in Ht end.
  rewrite Ht. trace_simpl. rewrite ?length_app. cbn [length]. lia.
Qed.

(** The first request of a call, as the adapter receives it. *)
Lemma first_request dev s cfg :
  ∃ rest,
    sends api_client (trace (send dev server s cfg).1) =
    outgoing s cfg :: rest.
Proof.
  unfold send. rewrite run_apiClient_attempt.
  match goal with |- context [run server ?p ?w1] =>
    destruct (run_trace_extends server p w1) as [t Ht] end.
  rewrite Ht. trace_simpl. eauto.
Qed.

Lemma outgoing_other_header s cfg name :
  name ≠ "Authorization" →
  headers (outgoing s cfg) ≫= (.!! name) =
  (default ∅ (headers cfg) ∪ default ∅ (headers apiClient_defaults)) !! name.
Proof.
  intros Hname. unfold outgoing. cbn [mergeConfig headers].
  destruct (s !! "access_token") as [token|]; [destruct (String.eqb token "")|];
    cbn [mergeConfig set_Authorization headers]; simpl; try done.
  by rewrite lookup_insert_ne.
Qed.

Lemma outgoing_baseURL s cfg :
  baseURL (outgoing s cfg) = Some (default API_BASE_URL (baseURL cfg)).
Proof.
  unfold outgoing. cbn [mergeConfig headers].
  destruct (s !! "access_token") as [token|]; [destruct (String.eqb token "")|];
    cbn [mergeConfig set_Authorization baseURL apiClient_defaults];
    by destruct (baseURL cfg).
Qed.

Lemma outgoing_timeout s cfg :
  timeout (outgoing s cfg) = Some (default 10000 (timeout cfg)).
Proof.
  unfold outgoing. cbn [mergeConfig headers].
  destruct (s !! "access_token") as [token|]; [destruct (String.eqb token "")|];
    cbn [mergeConfig set_Authorization timeout apiClient_defaults];
    by destruct (timeout cfg).
Qed.

(** The request that leaves is the caller's, completed by the defaults of
    the instance: the caller's URL, method and body; the caller's base URL
    and timeout, or the instance's when the caller gives none; and, when the
    caller supplies no headers at all, as every call of [productApi] does,
    exactly the Accept and Content-Type headers of the instance, with the
    bearer credential added when a usable token is stored. *)
Theorem instance_defaults_fill_the_request dev s cfg :
  ∃ first rest,
    sends api_client (trace (send dev server s cfg).1) = first :: rest ∧
    url first = url cfg ∧ method first = method cfg ∧ data first = data cfg ∧
    baseURL first = Some (default API_BASE_URL (baseURL cfg)) ∧
    timeout first = Some (default 10000 (timeout cfg)) ∧
    (headers cfg = None →
     headers first =
       Some (let defaults : gmap string string :=
               {[ "Accept" := "application/json, text/plain, */*";
                  "Content-Type" := "application/json" ]} in
             match s !! "access_token" with
             | Some token =>
                 if String.eqb token "" then defaults
                 else <["Authorization" := "Bearer " +:+ token]> defaults
             | None => defaults
             end)).
Proof.
  destruct (first_request dev s cfg) as [rest Hfirst].
  exists (outgoing s cfg), rest. split; [exact Hfirst|].
  rewrite outgoing_url, outgoing_method, outgoing_data, outgoing_baseURL, outgoing_timeout.
  do 5 (split; [done|]).
  intros Hnone.
  assert (headers (mergeConfig apiClient_defaults cfg) =
          Some {[ "Accept" := "application/json, text/plain, */*";
                  "Content-Type" := "application/json" ]}) as Hmerged.
  { cbn [mergeConfig headers]. rewrite Hnone.
    cbn [default apiClient_defaults headers]. unfold id.
    by rewrite (left_id_L ∅ (∪)). }
  unfold outgoing. rewrite Hmerged.
  destruct (s !! "access_token") as [token|]; [destruct (String.eqb token "")|];
    cbn [set_Authorization headers]; done.
Qed.

(** The stored access token is the credential of the request: it replaces
    whatever Authorization header the caller supplied.  With no usable
    token in the store the caller's header, if any, goes out as it is. *)
Theorem stored_token_is_the_bearer dev s cfg :
  ∃ first rest,
    sends api_client (trace (send dev server s cfg).1) = first :: rest ∧
    (∀ token, s !! "access_token" = Some token → token ≠ "" →
       Authorization first = Some ("Bearer " +:+ token)) ∧
    (truthy (s !! "access_token") = false → Authorization first = Authorization cfg).
Proof.
  destruct (first_request dev s cfg) as [rest Hfirst].
  exists (outgoing s cfg), rest. split; [exact Hfirst|]. split.
  - intros token Hs Hne. by apply outgoing_Authorization.
  - intros Hfalse. unfold outgoing, Authorization. cbn [mergeConfig headers].
    assert ((default ∅ (headers cfg) ∪ default ∅ (headers apiClient_defaults) : gmap string string)
              !! "Authorization" = headers cfg ≫= (.!! "Authorization")) as Hmerged.
    { cbn [apiClient_defaults headers default]. unfold id. rewrite lookup_union.
      rewrite lookup_insert_ne, lookup_singleton_ne by done.
      destruct (headers cfg) as [h|]; simpl.
      - by destruct (h !! "Authorization").
      - by rewrite lookup_empty. }
    apply truthy_false in Hfalse as [->| ->]; simpl; exact Hmerged.
Qed.

(** ** Nothing but the two tokens is ever written *)

Lemma TokenOnly_bind {A B} (p : Prog A) (f : A → Prog B) :
  TokenOnly p → (∀ a, TokenOnly (f a)) → TokenOnly (bind p f).
Proof. intros Hp Hf. induction Hp; simpl; try constructor; auto. Qed.

Lemma TokenOnly_try_catch {A} (p : Prog A) (h : JsError → Prog A) :
  TokenOnly p → (∀ e, TokenOnly (h e)) → TokenOnly (try_catch p h).
Proof. intros Hp Hh. induction Hp; simpl; try constructor; auto. Qed.

Lemma token_key_access : token_key "access_token".
Proof. by left. Qed.

Lemma token_key_refresh : token_key "refresh_token".
Proof. by right. Qed.

Lemma TokenOnly_settle cfg o : TokenOnly (settle cfg o).
Proof.
  destruct o as [r|msg|msg]; simpl; [destruct (validateStatus (status r))|..];
    constructor.
Qed.

Ltac token_step :=
  first
    [ apply TokenOnly_settle
    | apply TokenOnly_bind | apply TokenOnly_try_catch
    | apply TokenOnly_Ret | apply TokenOnly_Throw | apply TokenOnly_Unfinished
    | apply TokenOnly_GetString | apply TokenOnly_Log | apply TokenOnly_AxiosLog
    | apply TokenOnly_Send
    | apply TokenOnly_SetString; [first [apply token_key_access | apply token_key_refresh]|]
    | apply TokenOnly_Delete; [first [apply token_key_access | apply token_key_refresh]|]
    | intro
    | match goal with
      | |- TokenOnly (match ?x with _ => _ end) => destruct x
      end ].

Ltac token_only := repeat token_step.

Lemma TokenOnly_requestInterceptor cfg : TokenOnly (requestInterceptor cfg).
Proof. unfold requestInterceptor, mmkv_getString. token_only. Qed.

Lemma TokenOnly_logger_error dev msg d : TokenOnly (logger_error dev msg d).
Proof. unfold logger_error. token_only. Qed.

Lemma TokenOnly_handleLogout dev : TokenOnly (handleLogout dev).
Proof.
  unfold handleLogout, mmkv_delete, logger_debug.
  repeat first [ apply TokenOnly_logger_error | token_step ].
Qed.

Lemma TokenOnly_handleApiError dev e : TokenOnly (handleApiError dev e).
Proof.
  unfold handleApiError.
  destruct (error_response e);
    repeat first [ apply TokenOnly_logger_error | apply TokenOnly_handleLogout | token_step ].
Qed.

Lemma TokenOnly_refreshTokens dev : TokenOnly (refreshTokens dev).
Proof.
  unfold refreshTokens, mmkv_getString, mmkv_set, mmkv_delete,
    axios_post, dispatchRequest.
  repeat first [ apply TokenOnly_logger_error | token_step ].
Qed.

Lemma TokenOnly_responseRejected dev retry e :
  (∀ cfg, TokenOnly (retry cfg)) →
  TokenOnly (responseRejected dev retry e).
Proof.
  intros Hretry. unfold responseRejected, reportNoResponse.
  repeat first
    [ apply TokenOnly_refreshTokens | apply TokenOnly_handleLogout
    | apply TokenOnly_handleApiError | apply TokenOnly_logger_error
    | apply Hretry | token_step ].
Qed.

Lemma TokenOnly_apiClient dev fuel cfg : TokenOnly (apiClient dev fuel cfg).
Proof.
  revert cfg. induction fuel as [|fuel IH]; intros cfg; cbn [apiClient]; [constructor|].
  unfold dispatchRequest.
  repeat first
    [ apply TokenOnly_requestInterceptor
    | apply TokenOnly_responseRejected; exact IH | token_step ].
Qed.

Lemma same_other_keys_refl s : same_other_keys s s.
Proof. by intros key. Qed.

Lemma same_other_keys_trans s1 s2 s3 :
  same_other_keys s1 s2 → same_other_keys s2 s3 → same_other_keys s1 s3.
Proof. intros H12 H23 key Hkey. by rewrite H23, H12. Qed.

Lemma same_other_keys_insert s key value :
  token_key key → same_other_keys s (<[key := value]> s).
Proof. intros Hkey other Hother. apply lookup_insert_ne. by intros ->. Qed.

Lemma same_other_keys_delete s key :
  token_key key → same_other_keys s (delete key s).
Proof. intros Hkey other Hother. apply lookup_delete_ne. by intros ->. Qed.

Lemma TokenOnly_run {R} (p : Prog R) w :
  TokenOnly p → same_other_keys (store w) (store (run server p w).1).
Proof.
  intros Hp. revert w. induction Hp; intros w; simpl; auto using same_other_keys_refl.
  - eapply same_other_keys_trans; [|apply IHHp]. by apply same_other_keys_insert.
  - eapply same_other_keys_trans; [|apply IHHp]. by apply same_other_keys_delete.
  - apply (IHHp (emit (EvLog lvl msg d) w)).
  - apply (IHHp (emit (EvAxiosLogger h) w)).
  - match goal with H : ∀ o w, _ |- _ => apply (H _ (emit (EvSend inst cfg) w)) end.
Qed.

Lemma TokenOnly_advance {R} (p : Prog R) w :
  TokenOnly p →
  same_other_keys (store w) (store (advance p w).1) ∧ TaskTokenOnly (advance p w).2.
Proof.
  intros Hp. revert w. induction Hp; intros w; simpl; auto using same_other_keys_refl.
  - destruct (IHHp (write key value w)) as [Hst Ht]. split; [|done].
    eapply same_other_keys_trans; [|exact Hst]. by apply same_other_keys_insert.
  - destruct (IHHp (remove key w)) as [Hst Ht]. split; [|done].
    eapply same_other_keys_trans; [|exact Hst]. by apply same_other_keys_delete.
  - apply (IHHp (emit (EvLog lvl msg d) w)).
  - apply (IHHp (emit (EvAxiosLogger h) w)).
Qed.

(** A logical call reads and writes the two token keys and nothing else:
    every other key of the MMKV instance holds after the call what it held
    before, whatever the server answers and whatever the build. *)
Theorem call_touches_only_the_tokens dev s cfg key :
  key ≠ "access_token" → key ≠ "refresh_token" →
  store (send dev server s cfg).1 !! key = s !! key.
Proof.
  intros Ha Hr. unfold send.
  apply (TokenOnly_run (apiClient dev 2 cfg) (fresh s)
           (TokenOnly_apiClient dev 2 cfg)).
  by intros [|].
Qed.

Lemma deliver_TokenOnly (sys sys' : System Response) i o :
  Forall TaskTokenOnly (pool sys) →
  deliver i o sys = Some sys' →
  same_other_keys (store (world sys)) (store (world sys')) ∧
  Forall TaskTokenOnly (pool sys').
Proof.
  intros Hpool. unfold deliver.
  destruct (pool sys !! i) as [[r|inst cfg k]|] eqn:Hi; try done.
  assert (TaskTokenOnly (Awaiting inst cfg k)) as Hk
    by (rewrite Forall_forall in Hpool; apply Hpool; by eapply list_elem_of_lookup_2).
  destruct (TokenOnly_advance (k o) (world sys) (Hk o)) as [Hst Ht].
  destruct (advance (k o) (world sys)) as [w t]. intros [= <-]. cbn [world pool fst snd] in *.
  split; [done|]. by apply Forall_insert.
Qed.

Lemma deliver_all_TokenOnly sched (sys sys' : System Response) :
  Forall TaskTokenOnly (pool sys) →
  deliver_all sched sys = Some sys' →
  same_other_keys (store (world sys)) (store (world sys')) ∧
  Forall TaskTokenOnly (pool sys').
Proof.
  revert sys. induction sched as [|[i o] sched IH]; intros sys Hpool; cbn.
  - intros [= <-]. split; [apply same_other_keys_refl|done].
  - destruct (deliver i o sys) as [sys1|] eqn:Hdel; [|done].
    destruct (deliver_TokenOnly sys sys1 i o Hpool Hdel) as [Hst Hpool1].
    intros Hrun. destruct (IH sys1 Hpool1 Hrun) as [Hst' Hpool'].
    split; [by eapply same_other_keys_trans|done].
Qed.

Lemma launch_from_TokenOnly dev cfgs (sys : System Response) :
  Forall TaskTokenOnly (pool sys) →
  same_other_keys (store (world sys))
    (store (world (launch_from dev sys cfgs))) ∧
  Forall TaskTokenOnly (pool (launch_from dev sys cfgs)).
Proof.
  revert sys. induction cfgs as [|cfg cfgs IH]; intros sys Hpool.
  - split; [apply same_other_keys_refl|done].
  - cbn [launch_from foldl].
    destruct (TokenOnly_advance (apiClient dev 2 cfg) (world sys)
                (TokenOnly_apiClient dev 2 cfg)) as [Hst Ht].
    destruct (IH (spawn (apiClient dev 2 cfg) sys)) as [Hst' Hpool'].
    { unfold spawn.
      destruct (advance (apiClient dev 2 cfg) (world sys)) as [w t].
      cbn [pool snd] in *. apply Forall_app. split; [done|]. by constructor. }
    split; [|exact Hpool'].
    eapply same_other_keys_trans; [|exact Hst'].
    unfold spawn.
    by destruct (advance (apiClient dev 2 cfg) (world sys)) as [w t].
Qed.

(** The same holds on the event loop: however many calls are in flight and
    in whatever order their outcomes arrive, only the two token keys of the
    store can have changed. *)
Theorem event_loop_touches_only_the_tokens dev cfgs s sched sys key :
  deliver_all sched (launch dev cfgs s) = Some sys →
  key ≠ "access_token" → key ≠ "refresh_token" →
  store (world sys) !! key = s !! key.
Proof.
  intros Hrun Ha Hr. unfold launch in Hrun.
  destruct (launch_from_TokenOnly dev cfgs {| world := fresh s; pool := [] |})
    as [Hst Hpool]; [done|].
  destruct (deliver_all_TokenOnly sched _ sys Hpool Hrun) as [Hst' _].
  rewrite Hst', Hst by (by intros [|]). done.
Qed.

(** ** A failed exchange that arrives late *)


(** ** [productApi] *)

(** A call of the client whose first response is accepted hands that
    response to what follows, in the world the one request left. *)
Lemma accepted_response_continues {A} dev cfg (f : Response → Prog A) s r :
  server api_client 0%nat = Responded r →
  validateStatus (status r) = true →
  run server (response ← apiClient dev 2 cfg; f response) (fresh s) =
  run server (f r)
    (emit (EvAxiosLogger responseLogger)
       (emit (EvSend api_client (outgoing s cfg))
          (emit (EvAxiosLogger requestLogger) (fresh s)))).
Proof.
  intros Ho Hv. rewrite run_bind.
  by erewrite run_apiClient_fulfilled by (cbn [fresh trace sends length]; eauto).
Qed.

(** [getProducts] asks for one page with one GET and returns the body of
    the response: page 1 and limit 20 when the arguments are omitted, the
    numbers the caller gave otherwise, zero and negative ones included, as
    long as they are safe integers, which JavaScript prints in decimal. *)
Theorem getProducts_fetches_a_page dev page limit s r :
  isSafeInteger (default 1 page) = true →
  isSafeInteger (default 20 limit) = true →
  server api_client 0%nat = Responded r →
  validateStatus (status r) = true →
  ∃ w' sent,
    run server (getProducts dev page limit) (fresh s) =
      (w', Fulfilled (body r)) ∧
    store w' = s ∧
    sends api_client (trace w') = [sent] ∧
    sends axios (trace w') = [] ∧
    method sent = "get" ∧ data sent = None ∧
    url sent =
      "/products?page=" +:+ pretty (default 1 page) +:+
      "&limit=" +:+ pretty (default 20 limit).
Proof.
  intros _ _ Ho Hv. unfold getProducts, apiClient_get.
  rewrite (accepted_response_continues _ _ _ s r Ho Hv). exec.
  eexists _, _. split; [reflexivity|]. trace_simpl.
  split; [done|]. split; [reflexivity|].
  by rewrite outgoing_method, outgoing_data, outgoing_url.
Qed.

(** [deleteProduct] sends one DELETE for the id and fulfils with nothing,
    whatever body the server returned. *)
Theorem deleteProduct_discards_the_body dev id s r :
  server api_client 0%nat = Responded r →
  validateStatus (status r) = true →
  ∃ w' sent,
    run server (deleteProduct dev id) (fresh s) = (w', Fulfilled tt) ∧
    store w' = s ∧
    sends api_client (trace w') = [sent] ∧
    method sent = "delete" ∧ url sent = "/products/" +:+ id ∧ data sent = None.
Proof.
  intros Ho Hv. unfold deleteProduct, apiClient_delete.
  rewrite (accepted_response_continues _ _ _ s r Ho Hv). exec.
  eexists _, _. split; [reflexivity|]. trace_simpl.
  split; [done|]. split; [reflexivity|].
  by rewrite outgoing_method, outgoing_data, outgoing_url.
Qed.

(** The id and the query are pasted into the path as they are.  An id that
    spells the search route is the search: [getProduct("search?q=" + q)]
    and [searchProducts(q)] are the same call, for every server and store. *)
Lemma unescaped_id_reaches_the_search_route dev q w :
  run server (getProduct dev ("search?q=" +:+ q)) w =
  run server (searchProducts dev q) w.
Proof. reflexivity. Qed.

(** A failure of the client passes through [productApi] untouched. *)
Lemma productApi_passes_rejections_on dev id s w' e :
  run server (getProduct dev id) (fresh s) = (w', Rejected e) →
  send dev server s (request_config "get" ("/products/" +:+ id) None) = (w', Rejected e).
Proof.
  unfold getProduct, apiClient_get, send. rewrite run_bind.
  destruct (run server (apiClient dev 2 _) (fresh s)) as [w1 [r|e1|]] eqn:Hrun;
    cbn [run]; by intros [= <- <-].
Qed.

(** * Beyond the claims: the logger, the firebase service and the hooks *)

(** [JSON.stringify] *)
Variable stringify : option LogData → string.

(** In a development build the logger never touches crashlytics, whatever
    the client logs: every call hands one line to react-native-logs and
    that is all. *)
Theorem development_builds_spare_crashlytics t :
  recorded_errors (sink_output true stringify t) = [] ∧
  crashlytics_lines (sink_output true stringify t) = [] ∧
  sink_output true stringify t = (λ '(lvl, msg, d), RnLogger lvl msg d) <$> logs t.
Proof.
  induction t as [|[|lvl msg d|] t (IH1 & IH2 & IH3)]; simpl; auto.
  destruct lvl; simpl; rewrite ?IH1, ?IH2, ?IH3; auto.
Qed.

(** In a production build [handleLogout] reaches no sink at all: its only
    logger call is [debug], which the logger drops.  In a development
    build it prints that one line. *)
Theorem logout_is_silent_in_production dev w :
  sink_output dev stringify (trace (run server (handleLogout dev) w).1) =
  sink_output dev stringify (trace w) ++
  (if dev then [RnLogger LDebug "Logout successful and data cleared." NoData] else []).
Proof.
  rewrite run_handleLogout. unfold logged_out. cbn [fst trace emit remove].
  rewrite sink_output_app. by destruct dev.
Qed.

(** No failed refresh is reported to crashlytics, in either build.  On its
    failure path [refreshTokens] calls [logger.error] once; a development
    build skips the crashlytics report, and in a production build
    [this.logger.error] raises before the report is reached.  A refresh
    that succeeds reaches no sink at all. *)
Theorem failed_refresh_is_never_reported dev w :
  ∃ out,
    sink_output dev stringify (trace (run server (refreshTokens dev) w).1) =
      sink_output dev stringify (trace w) ++ out ∧
    recorded_errors out = [] ∧
    crashlytics_lines out = [] ∧
    match (run server (refreshTokens dev) w).2 with
    | Fulfilled (Some _) => out = []
    | _ => ∃ e, out = [RnLogger LError "Token Refresh Error:" (Thrown e)]
    end.
Proof.
  destruct (refreshTokens_result dev w)
    as [Ht|token e w1 Hst Hne Htr|token accessToken newRT Hst Hne]; cbn [fst snd].
  - eexists. unfold refresh_failure. cbn [trace emit remove].
    rewrite sink_output_app. split; [reflexivity|].
    destruct dev; cbn; eauto.
  - exists [RnLogger LError "Token Refresh Error:" (Thrown e)].
    unfold refresh_failure. cbn [trace emit remove]. rewrite Htr.
    rewrite !sink_output_app. split; [by destruct dev; cbn; rewrite app_nil_r|].
    destruct dev; cbn; eauto.
  - exists []. unfold refresh_success. cbn [trace emit write].
    rewrite sink_output_app. cbn. by rewrite !app_nil_r.
Qed.


End App.

(** The query keys form two families under ['products']: every key starts
    with [all]; the keys that start with [lists()], the prefix the
    mutations invalidate, are [lists()] itself and the filtered lists and
    no others; the keys that start with [details()] are [details()] and
    the keys of single products. *)
Theorem query_key_families k :
  productKeys.all `prefix_of` key_of k ∧
  (productKeys.lists `prefix_of` key_of k ↔ k = KeyLists ∨ ∃ filters, k = KeyList filters) ∧
  (productKeys.details `prefix_of` key_of k ↔ k = KeyDetails ∨ ∃ id, k = KeyDetail id).
Proof.
  split; [|split; split].
  - destruct k; eexists; reflexivity.
  - intros [suffix Hk]. destruct k; try discriminate; eauto.
  - intros [->|[filters ->]]; eexists; reflexivity.
  - intros [suffix Hk]. destruct k; try discriminate; eauto.
  - intros [->|[id ->]]; eexists; reflexivity.
Qed.

(** Distinct keys never collide: the cache entry of a product, of a search
    and of a filtered list are told apart by their keys. *)
Theorem query_keys_are_distinct k1 k2 : key_of k1 = key_of k2 → k1 = k2.
Proof. destruct k1, k2; intros [=]; congruence. Qed.

(** The optimistic update leaves a missing cache entry missing, overwrites
    exactly the members it is given, and two updates in a row are one
    update in which the later one wins. *)
Theorem optimistic_update_merges {V} (updates later : gmap string V) old :
  optimistic_update updates None = None ∧
  (∀ product, old = Some product →
     ∃ new, optimistic_update updates old = Some new ∧
            (∀ key v, updates !! key = Some v → new !! key = Some v) ∧
            (∀ key, updates !! key = None → new !! key = product !! key)) ∧
  optimistic_update later (optimistic_update updates old) =
    optimistic_update (later ∪ updates) old.
Proof.
  split; [done|]. split.
  - intros product ->. eexists. split; [reflexivity|]. split.
    + intros key v Hkey. by apply lookup_union_Some_l.
    + intros key Hkey. by apply lookup_union_r.
  - destruct old as [product|]; simpl; [|done]. by rewrite (assoc_L (∪)).
Qed.

(** ** Worked scenarios *)



(** C5 fails on the code where the exchange returns no rotated refresh
    token: the stored refresh token "r0" is not retained, in either
    build. *)
Lemma exchange_without_rotation_loses_the_refresh_token :
  Forall
    (λ dev,
       store (run (rejecting (access_token_only "a1"))
                (refreshTokens hermes_message "/auth/refresh" dev)
                (fresh signed_in)).1 !! "refresh_token" = None)
    [true; false] ∧
  signed_in !! "refresh_token" = Some "r0".
Proof. split; [repeat constructor; vm_compute; done|reflexivity]. Qed.


(** C7 fails on the code: no logout signal is emitted.  In a production
    build two invocations of [handleLogout] empty the store and give
    nothing to any transport nor, whatever [JSON.stringify] does, to any
    sink of the logger. *)
Lemma logout_emits_no_signal :
  let w1 := (run offline (handleLogout hermes_message false) (fresh signed_in)).1 in
  let w2 := (run offline (handleLogout hermes_message false) w1).1 in
  store w2 = ∅ ∧
  sends axios (trace w2) = [] ∧ sends api_client (trace w2) = [] ∧
  (∀ stringify,
     sink_output hermes_message false stringify (trace w1) = [] ∧
     sink_output hermes_message false stringify (trace w2) = []).
Proof.
  cbv zeta. split; [by vm_compute|]. split; [by vm_compute|]. split; [by vm_compute|].
  intros stringify. split; reflexivity.
Qed.

(** The theorems above, at concrete inputs. *)





Lemma refreshTokens_writes_both_scenario :
  (store (fresh signed_in) !! "refresh_token" = Some "r0" ∧ "r0" ≠ "" ∧
   rejecting (tokens "a1" "r1") axios (length (sends axios (trace (fresh signed_in)))) =
     tokens "a1" "r1" ∧
   validateStatus 200 = true ∧
   ({[ "accessToken" := "a1"; "refresh_token" := "r1" ]} : gmap string string)
     !! "accessToken" = Some "a1" ∧
   ({[ "accessToken" := "a1"; "refresh_token" := "r1" ]} : gmap string string)
     !! "refresh_token" = Some "r1") ∧
  ∃ w',
    run (rejecting (tokens "a1" "r1")) (refreshTokens hermes_message "/auth/refresh" false)
      (fresh signed_in) = (w', Fulfilled (Some "a1")) ∧
    store w' !! "access_token" = Some "a1" ∧
    store w' !! "refresh_token" = Some "r1".
Proof.
  assert ("r0" ≠ "") as Hne by discriminate.
  assert (({[ "accessToken" := "a1"; "refresh_token" := "r1" ]} : gmap string string)
            !! "accessToken" = Some "a1") as Hd1 by (vm_compute; reflexivity).
  assert (({[ "accessToken" := "a1"; "refresh_token" := "r1" ]} : gmap string string)
            !! "refresh_token" = Some "r1") as Hd2 by (vm_compute; reflexivity).
  split; [by repeat split|].
  destruct (refreshTokens_writes_both hermes_message "/auth/refresh"
              (rejecting (tokens "a1" "r1")) false
              (fresh signed_in) "r0"
              {| status := 200;
                 body := Some {[ "accessToken" := "a1"; "refresh_token" := "r1" ]} |}
              {[ "accessToken" := "a1"; "refresh_token" := "r1" ]} "a1" "r1"
              eq_refl Hne eq_refl eq_refl eq_refl Hd1 Hd2)
    as (w' & Hrun & Ha & Hr & _).
  exists w'. by repeat split.
Defined.



Lemma requestInterceptor_frame_scenario :
  let with_header :=
    {| url := "/products"; method := "get"; baseURL := None; timeout := None;
       headers := Some {[ "Authorization" := "Basic caller" ]}; data := None;
       _retry := false |} in
  run offline (requestInterceptor with_header) (fresh ∅) = (fresh ∅, Fulfilled with_header).
Proof.
  intros with_header.
  destruct (requestInterceptor_frame offline with_header (fresh ∅))
    as (cfg' & Hrun & Hnone & _).
  rewrite Hrun. by rewrite (Hnone eq_refl).
Defined.

(** The further theorems, at concrete inputs. *)

Lemma accepted_response_is_returned_scenario :
  (scripted [ok {[ "id" := "42" ]}] offline_exchange api_client 0%nat = ok {[ "id" := "42" ]} ∧
   validateStatus 200 = true) ∧
  (send hermes_message "/auth/refresh" false (scripted [ok {[ "id" := "42" ]}] offline_exchange)
     signed_in product_request).2 =
    Fulfilled {| status := 200; body := Some {[ "id" := "42" ]} |}.
Proof.
  split; [by split|].
  destruct (accepted_response_is_returned hermes_message "/auth/refresh"
              (scripted [ok {[ "id" := "42" ]}] offline_exchange) false
              signed_in product_request
              {| status := 200; body := Some {[ "id" := "42" ]} |} eq_refl eq_refl)
    as (w' & Hsend & _).
  by rewrite Hsend.
Defined.





Lemma refreshed_call_is_replayed_scenario :
  let server := scripted [unauthorized None; ok {[ "id" := "42" ]}] (tokens "a1" "r1") in
  (_retry product_request = false ∧ server api_client 0%nat = unauthorized None ∧
   signed_in !! "refresh_token" = Some "r0" ∧ "r0" ≠ "" ∧
   server axios 0%nat = tokens "a1" "r1" ∧ validateStatus 200 = true ∧ "a1" ≠ "" ∧
   server api_client 1%nat = ok {[ "id" := "42" ]}) ∧
  ∃ w',
    send hermes_message "/auth/refresh" false server signed_in product_request =
      (w', Fulfilled {| status := 200; body := Some {[ "id" := "42" ]} |}) ∧
    store w' !! "access_token" = Some "a1" ∧
    store w' !! "refresh_token" = Some "r1".
Proof.
  intros server.
  assert ("r0" ≠ "") as Hr0 by discriminate.
  assert ("a1" ≠ "") as Ha1 by discriminate.
  assert (({[ "accessToken" := "a1"; "refresh_token" := "r1" ]} : gmap string string)
            !! "accessToken" = Some "a1") as Hd1 by (vm_compute; reflexivity).
  assert (({[ "accessToken" := "a1"; "refresh_token" := "r1" ]} : gmap string string)
            !! "refresh_token" = Some "r1") as Hd2 by (vm_compute; reflexivity).
  split; [by repeat split|].
  destruct (refreshed_call_is_replayed hermes_message "/auth/refresh" server false
              signed_in product_request None
              "r0" {| status := 200;
                      body := Some {[ "accessToken" := "a1"; "refresh_token" := "r1" ]} |}
              {[ "accessToken" := "a1"; "refresh_token" := "r1" ]} "a1" "r1"
              {| status := 200; body := Some {[ "id" := "42" ]} |}
              eq_refl eq_refl eq_refl Hr0 eq_refl eq_refl eq_refl Hd1 Ha1 Hd2
              eq_refl eq_refl)
    as (w' & second & Hsend & _ & _ & _ & _ & _ & _ & _ & Hacc & Href & _).
  exists w'. by repeat split.
Defined.


Lemma empty_access_token_logs_out_scenario :
  let server := rejecting (tokens "" "r1") in
  (_retry product_request = false ∧ server api_client 0%nat = unauthorized None ∧
   signed_in !! "refresh_token" = Some "r0" ∧ "r0" ≠ "" ∧
   server axios 0%nat = tokens "" "r1" ∧ validateStatus 200 = true) ∧
  ∃ w',
    send hermes_message "/auth/refresh" false server signed_in product_request =
      (w', Rejected (Error "Request failed with status code 401")) ∧
    logs (trace w') = [logout_entry] ∧
    store w' !! "refresh_token" = None.
Proof.
  intros server.
  assert ("r0" ≠ "") as Hr0 by discriminate.
  assert (({[ "accessToken" := ""; "refresh_token" := "r1" ]} : gmap string string)
            !! "accessToken" = Some "") as Hd1 by (vm_compute; reflexivity).
  assert (({[ "accessToken" := ""; "refresh_token" := "r1" ]} : gmap string string)
            !! "refresh_token" = Some "r1") as Hd2 by (vm_compute; reflexivity).
  split; [by repeat split|].
  destruct (empty_access_token_logs_out hermes_message "/auth/refresh" server false
              signed_in product_request None
              "r0" {| status := 200;
                      body := Some {[ "accessToken" := ""; "refresh_token" := "r1" ]} |}
              {[ "accessToken" := ""; "refresh_token" := "r1" ]} "r1"
              eq_refl eq_refl eq_refl Hr0 eq_refl eq_refl eq_refl Hd1 Hd2)
    as (w' & Hsend & _ & _ & _ & Href & Hlogs).
  exists w'. by repeat split.
Defined.


Lemma call_touches_only_the_tokens_scenario :
  ("theme" ≠ "access_token" ∧ "theme" ≠ "refresh_token") ∧
  store (send hermes_message "/auth/refresh" false (rejecting (NoResponse "Network Error"))
           signed_in_with_theme product_request).1 !! "theme" = Some "dark".
Proof.
  assert ("theme" ≠ "access_token") as Ha by discriminate.
  assert ("theme" ≠ "refresh_token") as Hr by discriminate.
  split; [by split|].
  by rewrite (call_touches_only_the_tokens hermes_message "/auth/refresh"
                (rejecting (NoResponse "Network Error")) false signed_in_with_theme
                product_request "theme" Ha Hr).
Defined.

Lemma event_loop_touches_only_the_tokens_scenario :
  ∃ sys,
    deliver_all [(1%nat, unauthorized None); (0%nat, unauthorized None);
                 (1%nat, NoResponse "Network Error")]
      (launch hermes_message "/auth/refresh" false [products_request; product_request]
         signed_in_with_theme)
      = Some sys ∧
    store (world sys) !! "theme" = Some "dark".
Proof.
  assert ("theme" ≠ "access_token") as Ha by discriminate.
  assert ("theme" ≠ "refresh_token") as Hr by discriminate.
  destruct (deliver_all [(1%nat, unauthorized None); (0%nat, unauthorized None);
                         (1%nat, NoResponse "Network Error")]
              (launch hermes_message "/auth/refresh" false [products_request; product_request]
                 signed_in_with_theme)) as [sys|] eqn:Hrun.
  - exists sys. split; [reflexivity|].
    by rewrite (event_loop_touches_only_the_tokens hermes_message "/auth/refresh" false
                  [products_request; product_request] signed_in_with_theme _ sys "theme"
                  Hrun Ha Hr).
  - by vm_compute in Hrun.
Defined.


Lemma getProducts_fetches_a_page_scenario :
  (isSafeInteger 1 = true ∧ isSafeInteger 50 = true ∧
   scripted [ok {[ "total" := "0" ]}] offline_exchange api_client 0%nat = ok {[ "total" := "0" ]} ∧
   validateStatus 200 = true) ∧
  ∃ w' sent,
    run (scripted [ok {[ "total" := "0" ]}] offline_exchange)
      (getProducts hermes_message "/auth/refresh" false None (Some 50)) (fresh signed_in) =
      (w', Fulfilled (Some {[ "total" := "0" ]})) ∧
    sends api_client (trace w') = [sent] ∧
    url sent = "/products?page=1&limit=50".
Proof.
  split; [by repeat split|].
  destruct (getProducts_fetches_a_page hermes_message "/auth/refresh"
              (scripted [ok {[ "total" := "0" ]}] offline_exchange) false
              None (Some 50) signed_in
              {| status := 200; body := Some {[ "total" := "0" ]} |}
              eq_refl eq_refl eq_refl eq_refl)
    as (w' & sent & Hrun & _ & Hsends & _ & _ & _ & Hurl).
  exists w', sent. by repeat split.
Defined.

Lemma deleteProduct_discards_the_body_scenario :
  (scripted [ok {[ "deleted" := "42" ]}] offline_exchange api_client 0%nat =
     ok {[ "deleted" := "42" ]} ∧
   validateStatus 200 = true) ∧
  (run (scripted [ok {[ "deleted" := "42" ]}] offline_exchange)
     (deleteProduct hermes_message "/auth/refresh" false "42") (fresh signed_in)).2 =
    Fulfilled tt.
Proof.
  split; [by split|].
  destruct (deleteProduct_discards_the_body hermes_message "/auth/refresh"
              (scripted [ok {[ "deleted" := "42" ]}] offline_exchange) false "42" signed_in
              {| status := 200; body := Some {[ "deleted" := "42" ]} |} eq_refl eq_refl)
    as (w' & sent & Hrun & _).
  by rewrite Hrun.
Defined.

Lemma query_keys_are_distinct_scenario :
  key_of (KeyDetail "42") = productKeys.details ++ [KString "42"] ∧
  KeyDetail "42" = KeyDetail "42".
Proof.
  split; [reflexivity|].
  exact (query_keys_are_distinct (KeyDetail "42") (KeyDetail "42") eq_refl).
Defined.
